(** * Ballistic calculator of RaspberrypiScopeV1.py

    A shallow embedding of the computational core of [BallisticCalculator]
    (get_bullet_drop, calculate_wind_drift, calculate_adjustments) and the
    properties of its table lookups, wind resolution and click conversion.

    Numbers.  Python floats are read as real numbers: [+ - * /], [abs],
    comparisons, [math.sin] and [math.radians] are the exact operations on
    [R], and the decimal literals of the source denote the decimal fractions
    they spell.  Rounding error of IEEE doubles, NaN and infinities are
    outside this model.  Python ints (table keys, click counts) are [Z].
    Three things follow for the statements below.  A double overflows
    where a real does not, and [round] raises OverflowError on an
    infinity: a statement that a result with clicks is returned bounds the
    wind speed (and, for tables other than the source's, their entries).
    A click count is rounded from a double that can lie on the other side
    of a tie than the real: a click count is stated to be the rounded real
    away from ties, and one of its two neighbours near a tie.  The sine of
    a double near a multiple of pi is not zero: labels are tied to the
    drift returned, not to a zero of the exact sine.

    Exceptions.  What the arithmetic and the dict accesses of the source can
    raise (ZeroDivisionError, KeyError, ValueError of min/max on an empty
    list) is kept, in a small error monad; [None] is [option]. *)

From Stdlib Require Import Reals Lra Lia ZArith List String Sorted Bool.
From Stdlib Require Import Strings.Byte.
Import ListNotations.

Local Open Scope R_scope.

(** ** Python values and exceptions *)

Inductive exn : Type :=
  | ZeroDivisionError
  | KeyError
  | ValueError.

Inductive result (A : Type) : Type :=
  | Ok (a : A)
  | Raise (e : exn).

Arguments Ok {A} a.
Arguments Raise {A} e.

Definition bind {A B : Type} (m : result A) (k : A -> result B) : result B :=
  match m with
  | Ok a => k a
  | Raise e => Raise e
  end.

Notation "x <- m ;; k" := (bind m (fun x => k))
  (at level 61, m at next level, right associativity).

(** Comparisons of floats, as booleans. *)

Definition Rltb (x y : R) : bool := if Rlt_dec x y then true else false.
Definition Rleb (x y : R) : bool := if Rle_dec x y then true else false.
Definition Reqb (x y : R) : bool := if Req_dec_T x y then true else false.

(** [x / y]: true division, which raises on a zero divisor. *)

Definition py_div (x y : R) : result R :=
  if Reqb y 0 then Raise ZeroDivisionError else Ok (x / y).

(** [round(x)] of a float: the nearest integer, a tie going to the even
    one.  Python raises OverflowError on an infinity and ValueError on a
    NaN; no real number is either. *)

Definition py_round (x : R) : Z :=
  let f := Zfloor x in
  let r := x - IZR f in
  if Rltb r (1 / 2) then f
  else if Rltb (1 / 2) r then (f + 1)%Z
  else if Z.even f then f else (f + 1)%Z.

(** [math.radians] and [math.sin]. *)

Definition radians (deg : R) : R := deg * (PI / 180).

(** ** Dicts with int keys and float values *)

Definition dict : Type := list (Z * R).

Definition keys (d : dict) : list Z := map fst d.

(** [x in d], for a float [x]: an int key equal to it as a number. *)

Definition dict_contains (d : dict) (x : R) : bool :=
  existsb (fun kv => Reqb (IZR (fst kv)) x) d.

(** [d[x]]. *)

Fixpoint dict_getitem (d : dict) (x : R) : result R :=
  match d with
  | [] => Raise KeyError
  | (k, v) :: d' => if Reqb (IZR k) x then Ok v else dict_getitem d' x
  end.

(** [sorted] on a list of ints. *)

Fixpoint insert_sorted (k : Z) (l : list Z) : list Z :=
  match l with
  | [] => [k]
  | h :: t => if (k <=? h)%Z then k :: l else h :: insert_sorted k t
  end.

Fixpoint sorted (l : list Z) : list Z :=
  match l with
  | [] => []
  | h :: t => insert_sorted h (sorted t)
  end.

(** [min] and [max] of a list of ints; both raise on the empty list. *)

Definition py_min (l : list Z) : result Z :=
  match l with
  | [] => Raise ValueError
  | h :: t => Ok (fold_left Z.min t h)
  end.

Definition py_max (l : list Z) : result Z :=
  match l with
  | [] => Raise ValueError
  | h :: t => Ok (fold_left Z.max t h)
  end.

(** ** The calculator *)

Module ElevationData.
Record t : Type := mk { clicks : Z; direction : string }.
End ElevationData.

Module WindageData.
Record t : Type := mk { clicks : Z; direction : string }.
End WindageData.

Definition MOA_CONVERSION : R := 1.047.
Definition CLICKS_PER_MOA : Z := 4.

(** The two tables a calculator carries: the class attribute
    [WIND_DRIFT_DATA] and the instance field [drop_data]. *)

Record BallisticCalculator : Type := {
  WIND_DRIFT_DATA : dict;
  drop_data : dict
}.

(** [BallisticCalculator()]: the object [__init__] builds (its display and
    serial handles play no part in the calculations). *)

Definition calculator : BallisticCalculator := {|
  WIND_DRIFT_DATA :=
    [ (100%Z, 0.5); (200%Z, 2.1); (300%Z, 4.9); (400%Z, 9.0);
      (500%Z, 14.6); (600%Z, 21.8); (700%Z, 30.9); (800%Z, 42.1);
      (900%Z, 55.7); (1000%Z, 71.9) ];
  drop_data :=
    [ (100%Z, -1.92); (200%Z, -9.73); (300%Z, -24.62); (400%Z, -48.11);
      (500%Z, -81.23); (600%Z, -125.47); (700%Z, -182.31); (800%Z, -253.15);
      (900%Z, -339.84); (1000%Z, -444.27) ]
|}.

(** The value computed between two neighbouring keys [d1], [d2]. *)

Definition interpolate (tbl : dict) (d1 d2 : Z) (x : R) : result R :=
  v1 <- dict_getitem tbl (IZR d1) ;;
  v2 <- dict_getitem tbl (IZR d2) ;;
  q <- py_div (x - IZR d1) (IZR (d2 - d1)) ;;
  Ok (v1 + (v2 - v1) * q).

(** The loop of get_bullet_drop over [range(len(distances) - 1)]: the pairs
    [distances[i], distances[i + 1]] in order, returning at the first pair
    that encloses the distance. *)

Fixpoint drop_scan (tbl : dict) (distances : list Z) (x : R)
  : result (option R) :=
  match distances with
  | d1 :: ((d2 :: _) as rest) =>
      if Rltb (IZR d1) x && Rltb x (IZR d2)
      then v <- interpolate tbl d1 d2 x ;; Ok (Some v)
      else drop_scan tbl rest x
  | _ => Ok None
  end.

Definition get_bullet_drop (self : BallisticCalculator) (distance_yards : R)
  : result (option R) :=
  let distances := sorted (keys (drop_data self)) in
  if dict_contains (drop_data self) distance_yards
  then v <- dict_getitem (drop_data self) distance_yards ;; Ok (Some v)
  else
    lo <- py_min distances ;;
    if Rltb distance_yards (IZR lo) then Ok None
    else
      hi <- py_max distances ;;
      if Rltb (IZR hi) distance_yards then Ok None
      else drop_scan (drop_data self) distances distance_yards.

(** The loop of calculate_wind_drift: the same pairs, but the loop runs to
    its end and every enclosing pair assigns [base_drift]. *)

Fixpoint drift_scan (tbl : dict) (distances : list Z) (x : R)
  (base_drift : option R) : result (option R) :=
  match distances with
  | d1 :: ((d2 :: _) as rest) =>
      if Rltb (IZR d1) x && Rltb x (IZR d2)
      then v <- interpolate tbl d1 d2 x ;; drift_scan tbl rest x (Some v)
      else drift_scan tbl rest x base_drift
  | _ => Ok base_drift
  end.

(** Lines 87-97 of calculate_wind_drift: the base drift for a 10 mph wind. *)

Definition base_drift_lookup (self : BallisticCalculator) (distance_yards : R)
  : result (option R) :=
  let distances := sorted (keys (WIND_DRIFT_DATA self)) in
  if dict_contains (WIND_DRIFT_DATA self) distance_yards
  then v <- dict_getitem (WIND_DRIFT_DATA self) distance_yards ;; Ok (Some v)
  else drift_scan (WIND_DRIFT_DATA self) distances distance_yards None.

Definition calculate_wind_drift (self : BallisticCalculator)
  (distance_yards wind_speed wind_angle : R) : result (option R) :=
  base_drift <- base_drift_lookup self distance_yards ;;
  match base_drift with
  | None => Ok None
  | Some base_drift =>
      let wind_angle_rad := radians wind_angle in
      let crosswind := Rabs (wind_speed * sin wind_angle_rad) in
      q <- py_div crosswind 10.0 ;;
      let actual_drift := base_drift * q in
      if Rleb 0 wind_angle && Rleb wind_angle 180
      then Ok (Some (- actual_drift))
      else Ok (Some actual_drift)
  end.

Definition calculate_adjustments (self : BallisticCalculator)
  (distance_yards wind_speed wind_angle : R)
  : result (option ElevationData.t * option WindageData.t) :=
  drop_inches <- get_bullet_drop self distance_yards ;;
  match drop_inches with
  | None => Ok (None, None)
  | Some drop_inches =>
      h <- py_div distance_yards 100 ;;
      elevation_moa <- py_div drop_inches (MOA_CONVERSION * h) ;;
      let elevation_clicks :=
        Z.abs (py_round (elevation_moa * IZR CLICKS_PER_MOA)) in
      let elevation_direction :=
        if Rltb drop_inches 0 then "UP"%string else "DOWN"%string in
      drift_inches <-
        calculate_wind_drift self distance_yards wind_speed wind_angle ;;
      match drift_inches with
      | None =>
          Ok (Some (ElevationData.mk elevation_clicks elevation_direction),
              None)
      | Some drift_inches =>
          h <- py_div distance_yards 100 ;;
          windage_moa <- py_div drift_inches (MOA_CONVERSION * h) ;;
          let windage_clicks :=
            Z.abs (py_round (windage_moa * IZR CLICKS_PER_MOA)) in
          let windage_direction :=
            if Rltb drift_inches 0 then "LEFT"%string else "RIGHT"%string in
          Ok (Some (ElevationData.mk elevation_clicks elevation_direction),
              Some (WindageData.mk windage_clicks windage_direction))
      end
  end.

(** ** Notions used in the statements *)

(** The magnitude calculate_wind_drift gives a base drift. *)

Definition drift_magnitude (wind_speed wind_angle base_drift : R) : R :=
  base_drift * (Rabs (wind_speed * sin (radians wind_angle)) / 10.0).

(** The angle and the two records calculate_adjustments builds. *)

Definition moa_at (distance_yards offset_inches : R) : R :=
  offset_inches / (MOA_CONVERSION * (distance_yards / 100)).

Definition elevation_of (distance_yards drop_inches : R) : ElevationData.t :=
  ElevationData.mk
    (Z.abs (py_round (moa_at distance_yards drop_inches
                      * IZR CLICKS_PER_MOA)))
    (if Rltb drop_inches 0 then "UP" else "DOWN").

Definition windage_of (distance_yards drift_inches : R) : WindageData.t :=
  WindageData.mk
    (Z.abs (py_round (moa_at distance_yards drift_inches
                      * IZR CLICKS_PER_MOA)))
    (if Rltb drift_inches 0 then "LEFT" else "RIGHT").

(** [d1] and [d2] are neighbouring keys of [tbl], which stores [v1] and
    [v2] under them. *)

Definition neighbours (tbl : dict) (d1 d2 : Z) (v1 v2 : R) : Prop :=
  (exists l1 l2, sorted (keys tbl) = l1 ++ d1 :: d2 :: l2) /\
  In (d1, v1) tbl /\ In (d2, v2) tbl.

(** The keys of both tables of the source. *)

Definition table_keys : list Z :=
  [100; 200; 300; 400; 500; 600; 700; 800; 900; 1000]%Z.

(** A calculator whose drift table ends at 200 yards: at 500 yards it finds
    a drop and no base drift. *)

Definition short_drift_calculator : BallisticCalculator := {|
  WIND_DRIFT_DATA := [ (100%Z, 0.5); (200%Z, 2.1) ];
  drop_data := drop_data calculator
|}.

(** ** The rangefinder and the loop of run *)

(** [round(x, ndigits)] of a float: the nearest multiple of
    [10 ** -ndigits], a tie going to the even one. *)

Definition py_round_ndigits (x : R) (ndigits : nat) : R :=
  IZR (py_round (x * 10 ^ ndigits)) / 10 ^ ndigits.

(** What the serial port gives get_distance after the trigger frame: the
    bytes [self.ser.read(9)] returns (fewer than nine on a timeout), or a
    [serial.SerialException] from the write or the read. *)

Inductive serial_outcome : Type :=
  | Response (data : list byte)
  | SerialException.

(** [data[i]], an int from 0 to 255; the source only indexes after it has
    checked [len(data) == 9]. *)

Definition byte_at (data : list byte) (i : nat) : Z :=
  Z.of_N (Byte.to_N (nth i data Byte.x00)).

Definition get_distance (port : serial_outcome) : result (option R) :=
  match port with
  | SerialException => Ok None
  | Response data =>
      if (List.length data =? 9)%nat
         && (byte_at data 0 =? 0x59)%Z && (byte_at data 1 =? 0x59)%Z
      then
        let distance_cm := (byte_at data 2 + Z.shiftl (byte_at data 3) 8)%Z in
        distance_yards <- py_div (IZR distance_cm) 91.44 ;;
        Ok (Some (py_round_ndigits distance_yards 1))
      else Ok None
  end.

(** The arguments of one call of display_oled. *)

Record display_call : Type := {
  shown_distance : R;
  shown_elevation : ElevationData.t;
  shown_windage : option WindageData.t;
  shown_battery : option Z
}.

(** One pass of the loop of run, up to its [time.sleep]: from what the
    serial port and get_battery_percentage give, the call of display_oled
    it makes, if any.  A float is true when it is not zero; a named tuple
    of two fields is always true.  [Raise] is an exception reaching the
    [except Exception] of the loop. *)

Definition run_cycle (self : BallisticCalculator) (port : serial_outcome)
  (battery : option Z) : result (option display_call) :=
  let wind_speed := 10 in
  let wind_angle := 90 in
  distance_yards <- get_distance port ;;
  match distance_yards with
  | None => Ok None
  | Some distance_yards =>
      if Reqb distance_yards 0 then Ok None
      else
        adjustments <-
          calculate_adjustments self distance_yards wind_speed wind_angle ;;
        match adjustments with
        | (Some elevation, windage) =>
            Ok (Some {| shown_distance := distance_yards;
                        shown_elevation := elevation;
                        shown_windage := windage;
                        shown_battery := battery |})
        | (None, _) => Ok None
        end
  end.

(** The distance in centimetres a nine-byte frame carries, low byte
    first. *)

Definition frame_cm (data : list byte) : Z :=
  (byte_at data 2 + 256 * byte_at data 3)%Z.

(** A frame get_distance accepts: nine bytes, the first two [0x59]. *)

Definition well_formed (data : list byte) : Prop :=
  List.length data = 9%nat /\
  byte_at data 0 = 0x59%Z /\ byte_at data 1 = 0x59%Z.

(** A table whose values fall ([sgn = -1]) or rise ([sgn = 1]) with the
    key. *)

Definition monotone_table (sgn : R) (tbl : dict) : Prop :=
  forall k1 k2 v1 v2,
    In (k1, v1) tbl -> In (k2, v2) tbl -> (k1 < k2)%Z ->
    sgn * v1 < sgn * v2.

(** A calculator for one table, used for both lookups. *)

Definition one_table (tbl : dict) : BallisticCalculator :=
  {| WIND_DRIFT_DATA := tbl; drop_data := tbl |}.

(** A calculator whose drop table has a key 0. *)

Definition zero_key_calculator : BallisticCalculator := {|
  WIND_DRIFT_DATA := WIND_DRIFT_DATA calculator;
  drop_data := (0%Z, 0.0) :: drop_data calculator
|}.

(** Frames of the rangefinder: 9140 cm (bytes [0xb4 0x23], low byte
    first) with two different tails, and 0 cm. *)

Definition frame_9140 : list byte :=
  [x59; x59; xb4; x23; x00; x00; x00; x00; x00].

Definition frame_9140_tail : list byte :=
  [x59; x59; xb4; x23; x12; x34; x56; x78; xff].


(** A table of ordinary size: magnitudes of keys and of values up to a
    million, far inside the range of a double. *)

Definition moderate_table (tbl : dict) : Prop :=
  forall k v,
    In (k, v) tbl -> Rabs (IZR k) <= 1000000 /\ Rabs v <= 1000000.

(** A number at least a millionth away from every tie of [round], the
    halves [n + 1/2]: there the rounded double and the rounded real are
    the same integer. *)

Definition away_from_ties (y : R) : Prop :=
  forall n : Z, 1 / 1000000 <= Rabs (y - (IZR n + 1 / 2)).

(** [clicks] is a click count of the angle [moa]: an integer that is not
    negative and within half a click and a millionth of four times the
    magnitude of the angle; away from ties it is that magnitude rounded,
    and near a tie one of its two neighbours. *)

Definition click_count (clicks : Z) (moa : R) : Prop :=
  (0 <= clicks)%Z /\
  Rabs (IZR clicks - Rabs moa * 4) <= 1 / 2 + 1 / 1000000 /\
  (away_from_ties (Rabs moa * 4) -> clicks = py_round (Rabs moa * 4)).

(** * Properties *)

(** ** Comparisons and division *)

Lemma Rltb_true (x y : R) : Rltb x y = true <-> x < y.
Proof. unfold Rltb; destruct (Rlt_dec x y); split; intros; try easy. Qed.

Lemma Rltb_false (x y : R) : Rltb x y = false <-> y <= x.
Proof.
  unfold Rltb; destruct (Rlt_dec x y); split; intros; try easy; lra.
Qed.

Lemma Rleb_true (x y : R) : Rleb x y = true <-> x <= y.
Proof. unfold Rleb; destruct (Rle_dec x y); split; intros; try easy. Qed.

Lemma Rleb_false (x y : R) : Rleb x y = false <-> y < x.
Proof.
  unfold Rleb; destruct (Rle_dec x y); split; intros; try easy; lra.
Qed.

Lemma Reqb_true (x y : R) : Reqb x y = true <-> x = y.
Proof. unfold Reqb; destruct (Req_dec_T x y); split; intros; try easy. Qed.

Lemma Reqb_false (x y : R) : Reqb x y = false <-> x <> y.
Proof. unfold Reqb; destruct (Req_dec_T x y); split; intros; try easy. Qed.

Lemma encloses_true (d1 d2 x : R) :
  Rltb d1 x && Rltb x d2 = true <-> d1 < x < d2.
Proof. rewrite andb_true_iff, !Rltb_true; tauto. Qed.

Lemma encloses_false (d1 d2 x : R) :
  Rltb d1 x && Rltb x d2 = false <-> x <= d1 \/ d2 <= x.
Proof. rewrite andb_false_iff, !Rltb_false; tauto. Qed.

Lemma py_div_ok (x y : R) : y <> 0 -> py_div x y = Ok (x / y).
Proof.
  intros Hy; unfold py_div.
  apply Reqb_false in Hy; now rewrite Hy.
Qed.

Lemma py_div_zero (x : R) : py_div x 0 = Raise ZeroDivisionError.
Proof.
  unfold py_div.
  assert (H : Reqb 0 0 = true) by now apply Reqb_true.
  now rewrite H.
Qed.

(** ** [sorted] *)

Lemma insert_sorted_In (k a : Z) (l : list Z) :
  In a (insert_sorted k l) <-> a = k \/ In a l.
Proof.
  induction l as [|h t IH]; simpl.
  - intuition.
  - destruct (k <=? h)%Z; simpl; rewrite ?IH; intuition.
Qed.

Lemma sorted_In (a : Z) (l : list Z) : In a (sorted l) <-> In a l.
Proof.
  induction l as [|h t IH]; simpl; [tauto|].
  rewrite insert_sorted_In, IH; intuition.
Qed.

Lemma insert_sorted_StronglySorted (k : Z) (l : list Z) :
  StronglySorted Z.le l -> StronglySorted Z.le (insert_sorted k l).
Proof.
  induction 1 as [|h t Hs IH Hall]; simpl.
  - constructor; constructor.
  - destruct (Z.leb_spec k h) as [Hle|Hlt].
    + constructor; [now constructor|].
      constructor; [exact Hle|].
      rewrite Forall_forall in *; intros a Ha.
      specialize (Hall a Ha); lia.
    + constructor; [exact IH|].
      rewrite Forall_forall in *; intros a Ha.
      apply insert_sorted_In in Ha as [->|Ha]; [lia|now apply Hall].
Qed.

Lemma sorted_StronglySorted (l : list Z) : StronglySorted Z.le (sorted l).
Proof.
  induction l as [|h t IH]; simpl.
  - constructor.
  - now apply insert_sorted_StronglySorted.
Qed.

Lemma sorted_nil (l : list Z) : sorted l = [] -> l = [].
Proof.
  destruct l as [|h t]; [easy|]; intros H.
  assert (Hin : In h (sorted (h :: t))) by (apply sorted_In; now left).
  now rewrite H in Hin.
Qed.

(** [min] and [max] return a lower and an upper bound that the list holds. *)

Lemma fold_min_spec (t : list Z) (h : Z) :
  In (fold_left Z.min t h) (h :: t) /\
  forall a, In a (h :: t) -> (fold_left Z.min t h <= a)%Z.
Proof.
  revert h; induction t as [|b t IH]; intros h; simpl.
  - split; [now left|]; intros a [->|[]]; lia.
  - destruct (IH (Z.min h b)) as [Hin Hle]; split.
    + destruct Hin as [Hin|Hin]; [|now right; right].
      rewrite <- Hin; destruct (Z.min_spec h b) as [[_ ->]|[_ ->]]; auto.
    + intros a [->|[->|Ha]].
      * specialize (Hle _ (or_introl eq_refl)); lia.
      * specialize (Hle _ (or_introl eq_refl)); lia.
      * apply Hle; now right.
Qed.

Lemma fold_max_spec (t : list Z) (h : Z) :
  In (fold_left Z.max t h) (h :: t) /\
  forall a, In a (h :: t) -> (a <= fold_left Z.max t h)%Z.
Proof.
  revert h; induction t as [|b t IH]; intros h; simpl.
  - split; [now left|]; intros a [->|[]]; lia.
  - destruct (IH (Z.max h b)) as [Hin Hle]; split.
    + destruct Hin as [Hin|Hin]; [|now right; right].
      rewrite <- Hin; destruct (Z.max_spec h b) as [[_ ->]|[_ ->]]; auto.
    + intros a [->|[->|Ha]].
      * specialize (Hle _ (or_introl eq_refl)); lia.
      * specialize (Hle _ (or_introl eq_refl)); lia.
      * apply Hle; now right.
Qed.

Lemma py_min_spec (l : list Z) (lo : Z) :
  py_min l = Ok lo -> In lo l /\ forall a, In a l -> (lo <= a)%Z.
Proof.
  destruct l as [|h t]; simpl; [discriminate|].
  intros [= <-]; apply fold_min_spec.
Qed.

Lemma py_max_spec (l : list Z) (hi : Z) :
  py_max l = Ok hi -> In hi l /\ forall a, In a l -> (a <= hi)%Z.
Proof.
  destruct l as [|h t]; simpl; [discriminate|].
  intros [= <-]; apply fold_max_spec.
Qed.

Lemma py_min_ok (l : list Z) : l <> [] -> exists lo, py_min l = Ok lo.
Proof. destruct l; [easy|]; simpl; eauto. Qed.

Lemma py_max_ok (l : list Z) : l <> [] -> exists hi, py_max l = Ok hi.
Proof. destruct l; [easy|]; simpl; eauto. Qed.

(** ** Dict access *)

Lemma dict_contains_true (d : dict) (x : R) :
  dict_contains d x = true <-> exists k, In k (keys d) /\ IZR k = x.
Proof.
  unfold dict_contains, keys; rewrite existsb_exists; split.
  - intros [[k v] [Hin Heq]]; apply Reqb_true in Heq; exists k; split; auto.
    apply in_map_iff; now exists (k, v).
  - intros [k [Hin Heq]]; apply in_map_iff in Hin as [[k' v] [Hk Hin]].
    exists (k', v); split; auto; apply Reqb_true; simpl in *; now subst.
Qed.

Lemma dict_contains_false (d : dict) (x : R) :
  dict_contains d x = false <-> forall k, In k (keys d) -> IZR k <> x.
Proof.
  rewrite <- not_true_iff_false, dict_contains_true; split.
  - intros H k Hin Heq; apply H; eauto.
  - intros H [k [Hin Heq]]; now apply (H k).
Qed.

Lemma dict_getitem_contains (d : dict) (x : R) :
  dict_contains d x = true -> exists v, dict_getitem d x = Ok v.
Proof.
  induction d as [|[k v] d IH]; simpl; [discriminate|].
  destruct (Reqb (IZR k) x); simpl; eauto.
Qed.

Lemma dict_getitem_key (d : dict) (k : Z) :
  In k (keys d) -> exists v, dict_getitem d (IZR k) = Ok v.
Proof.
  intros Hin; apply dict_getitem_contains, dict_contains_true; eauto.
Qed.

(** A value read from a dict is stored in it, under a key equal to the
    number asked for. *)

Lemma dict_getitem_In (d : dict) (x v : R) :
  dict_getitem d x = Ok v -> exists k, In (k, v) d /\ IZR k = x.
Proof.
  induction d as [|[k w] d IH]; simpl; [discriminate|].
  destruct (Reqb (IZR k) x) eqn:E.
  - intros [= ->]; apply Reqb_true in E; eauto.
  - intros H; destruct (IH H) as [k' [Hin Hk]]; eauto.
Qed.

(** ** The two scans over neighbouring keys *)

Section Scan.

Variable tbl : dict.
Variable x : R.

Lemma interpolate_eq (d1 d2 : Z) (v1 v2 : R) :
  dict_getitem tbl (IZR d1) = Ok v1 ->
  dict_getitem tbl (IZR d2) = Ok v2 ->
  IZR d1 < IZR d2 ->
  interpolate tbl d1 d2 x
  = Ok (v1 + (v2 - v1) * ((x - IZR d1) / (IZR d2 - IZR d1))).
Proof.
  intros H1 H2 Hlt; unfold interpolate; rewrite H1, H2; simpl.
  rewrite minus_IZR, py_div_ok by lra; reflexivity.
Qed.

Lemma interpolate_ok (d1 d2 : Z) :
  In d1 (keys tbl) -> In d2 (keys tbl) -> IZR d1 < x < IZR d2 ->
  exists v, interpolate tbl d1 d2 x = Ok v.
Proof.
  intros H1 H2 Hx.
  destruct (dict_getitem_key _ _ H1) as [v1 E1].
  destruct (dict_getitem_key _ _ H2) as [v2 E2].
  rewrite (interpolate_eq _ _ _ _ E1 E2) by lra; eauto.
Qed.

Lemma drop_scan_step (d1 d2 : Z) (rest : list Z) :
  drop_scan tbl (d1 :: d2 :: rest) x
  = if Rltb (IZR d1) x && Rltb x (IZR d2)
    then v <- interpolate tbl d1 d2 x ;; Ok (Some v)
    else drop_scan tbl (d2 :: rest) x.
Proof. reflexivity. Qed.

Lemma drift_scan_step (d1 d2 : Z) (rest : list Z) (base : option R) :
  drift_scan tbl (d1 :: d2 :: rest) x base
  = if Rltb (IZR d1) x && Rltb x (IZR d2)
    then v <- interpolate tbl d1 d2 x ;;
         drift_scan tbl (d2 :: rest) x (Some v)
    else drift_scan tbl (d2 :: rest) x base.
Proof. reflexivity. Qed.

(** No pair encloses a distance that lies on one side of all the keys. *)

Lemma drop_scan_outside (l : list Z) :
  (forall k, In k l -> x <= IZR k) \/ (forall k, In k l -> IZR k <= x) ->
  drop_scan tbl l x = Ok None.
Proof.
  induction l as [|d1 [|d2 l] IH]; intros H; try reflexivity.
  rewrite drop_scan_step.
  assert (E : Rltb (IZR d1) x && Rltb x (IZR d2) = false).
  { apply encloses_false; destruct H as [H|H].
    - left; apply H; now left.
    - right; apply H; right; now left. }
  rewrite E; apply IH.
  destruct H as [H|H]; [left|right]; intros k Hk; apply H; now right.
Qed.

Lemma drift_scan_outside (l : list Z) (base : option R) :
  (forall k, In k l -> x <= IZR k) \/ (forall k, In k l -> IZR k <= x) ->
  drift_scan tbl l x base = Ok base.
Proof.
  induction l as [|d1 [|d2 l] IH]; intros H; try reflexivity.
  rewrite drift_scan_step.
  assert (E : Rltb (IZR d1) x && Rltb x (IZR d2) = false).
  { apply encloses_false; destruct H as [H|H].
    - left; apply H; now left.
    - right; apply H; right; now left. }
  rewrite E; apply IH.
  destruct H as [H|H]; [left|right]; intros k Hk; apply H; now right.
Qed.

(** In sorted keys, the pair that encloses the distance is the one both
    scans use. *)

Lemma drop_scan_adjacent (l1 l2 : list Z) (d1 d2 : Z) :
  StronglySorted Z.le (l1 ++ d1 :: d2 :: l2) ->
  IZR d1 < x < IZR d2 ->
  drop_scan tbl (l1 ++ d1 :: d2 :: l2) x
  = (v <- interpolate tbl d1 d2 x ;; Ok (Some v)).
Proof.
  intros Hs Hx; induction l1 as [|a l1 IH].
  - cbn [app]; rewrite drop_scan_step.
    now rewrite (proj2 (encloses_true _ _ _) Hx).
  - inversion Hs as [|? ? Hs' Hall]; subst.
    specialize (IH Hs').
    assert (Hb : forall b, In b (l1 ++ d1 :: d2 :: l2) -> (a <= b)%Z)
      by now apply Forall_forall.
    change ((a :: l1) ++ d1 :: d2 :: l2)
      with (a :: (l1 ++ d1 :: d2 :: l2)).
    destruct (l1 ++ d1 :: d2 :: l2) as [|b rest] eqn:E.
    + now destruct l1.
    + rewrite drop_scan_step.
      assert (Hbd : IZR b <= IZR d1).
      { destruct l1 as [|c l1]; simpl in E; injection E as -> <-.
        - lra.
        - inversion Hs' as [|? ? _ Hall']; subst.
          apply IZR_le; rewrite Forall_forall in Hall'.
          apply Hall', in_or_app; right; now left. }
      assert (F : Rltb (IZR a) x && Rltb x (IZR b) = false)
        by (apply encloses_false; right; lra).
      now rewrite F.
Qed.

Lemma drift_scan_adjacent (l1 l2 : list Z) (d1 d2 : Z) (base : option R) :
  StronglySorted Z.le (l1 ++ d1 :: d2 :: l2) ->
  IZR d1 < x < IZR d2 ->
  drift_scan tbl (l1 ++ d1 :: d2 :: l2) x base
  = (v <- interpolate tbl d1 d2 x ;; Ok (Some v)).
Proof.
  intros Hs Hx; induction l1 as [|a l1 IH].
  - cbn [app]; rewrite drift_scan_step.
    rewrite (proj2 (encloses_true _ _ _) Hx).
    destruct (interpolate tbl d1 d2 x) as [v|e]; [|reflexivity].
    cbn [bind]; apply drift_scan_outside; left.
    inversion Hs as [|? ? Hs' _]; subst.
    inversion Hs' as [|? ? _ Hall]; subst.
    rewrite Forall_forall in Hall.
    intros k [<-|Hk]; [lra|].
    apply Hall, IZR_le in Hk; lra.
  - inversion Hs as [|? ? Hs' Hall]; subst.
    specialize (IH Hs').
    assert (Hb : forall b, In b (l1 ++ d1 :: d2 :: l2) -> (a <= b)%Z)
      by now apply Forall_forall.
    change ((a :: l1) ++ d1 :: d2 :: l2)
      with (a :: (l1 ++ d1 :: d2 :: l2)).
    destruct (l1 ++ d1 :: d2 :: l2) as [|b rest] eqn:E.
    + now destruct l1.
    + rewrite drift_scan_step.
      assert (Hbd : IZR b <= IZR d1).
      { destruct l1 as [|c l1]; simpl in E; injection E as -> <-.
        - lra.
        - inversion Hs' as [|? ? _ Hall']; subst.
          apply IZR_le; rewrite Forall_forall in Hall'.
          apply Hall', in_or_app; right; now left. }
      assert (F : Rltb (IZR a) x && Rltb x (IZR b) = false)
        by (apply encloses_false; right; lra).
      now rewrite F.
Qed.

(** Neither scan raises when the keys it walks are keys of the table. *)

Lemma drop_scan_total (l : list Z) :
  (forall k, In k l -> In k (keys tbl)) ->
  exists r, drop_scan tbl l x = Ok r.
Proof.
  induction l as [|d1 [|d2 l] IH]; intros Hk; try (simpl; eauto; fail).
  rewrite drop_scan_step.
  destruct (Rltb (IZR d1) x && Rltb x (IZR d2)) eqn:E.
  - apply encloses_true in E.
    destruct (interpolate_ok d1 d2) as [v Hv]; auto.
    + apply Hk; now left.
    + apply Hk; right; now left.
    + rewrite Hv; simpl; eauto.
  - apply IH; intros k Hin; apply Hk; now right.
Qed.

Lemma drift_scan_total (l : list Z) (base : option R) :
  (forall k, In k l -> In k (keys tbl)) ->
  exists r, drift_scan tbl l x base = Ok r /\ (base <> None -> r <> None).
Proof.
  revert base; induction l as [|d1 [|d2 l] IH]; intros base Hk;
    try (simpl; eauto; fail).
  rewrite drift_scan_step.
  assert (Hk' : forall k, In k (d2 :: l) -> In k (keys tbl))
    by (intros k Hin; apply Hk; now right).
  destruct (Rltb (IZR d1) x && Rltb x (IZR d2)) eqn:E.
  - apply encloses_true in E.
    destruct (interpolate_ok d1 d2) as [v Hv]; auto.
    + apply Hk; now left.
    + apply Hk; right; now left.
    + rewrite Hv; cbn [bind].
      destruct (IH (Some v) Hk') as [r [Hr Hn]].
      exists r; split; [exact Hr|]; intros _; now apply Hn.
  - apply IH, Hk'.
Qed.

(** A distance that is no key, not below the first key and not above
    some key, is enclosed by a pair: both scans find a value. *)

Lemma drop_scan_in_range (t : list Z) (a : Z) :
  (forall k, In k (a :: t) -> In k (keys tbl)) ->
  (forall k, In k (a :: t) -> IZR k <> x) ->
  IZR a <= x ->
  (exists h, In h (a :: t) /\ x <= IZR h) ->
  exists v, drop_scan tbl (a :: t) x = Ok (Some v).
Proof.
  revert a; induction t as [|b t IH]; intros a Hk Hne Ha [h [Hh Hx]].
  - destruct Hh as [<-|[]]; exfalso; apply (Hne a); [now left|lra].
  - assert (Hax : IZR a < x).
    { destruct Ha as [Ha|Ha]; [exact Ha|]; exfalso.
      apply (Hne a); [now left|exact Ha]. }
    rewrite drop_scan_step.
    destruct (Rltb (IZR a) x && Rltb x (IZR b)) eqn:E.
    + apply encloses_true in E.
      destruct (interpolate_ok a b) as [v Hv]; auto.
      * apply Hk; now left.
      * apply Hk; right; now left.
      * rewrite Hv; simpl; eauto.
    + apply encloses_false in E; destruct E as [E|E]; [lra|].
      apply IH; auto.
      * intros k Hin; apply Hk; now right.
      * intros k Hin; apply Hne; now right.
      * exists h; split; [|exact Hx].
        destruct Hh as [<-|Hh]; [lra|exact Hh].
Qed.

Lemma drift_scan_in_range (t : list Z) (a : Z) (base : option R) :
  (forall k, In k (a :: t) -> In k (keys tbl)) ->
  (forall k, In k (a :: t) -> IZR k <> x) ->
  IZR a <= x ->
  (exists h, In h (a :: t) /\ x <= IZR h) ->
  exists v, drift_scan tbl (a :: t) x base = Ok (Some v).
Proof.
  revert a base; induction t as [|b t IH];
    intros a base Hk Hne Ha [h [Hh Hx]].
  - destruct Hh as [<-|[]]; exfalso; apply (Hne a); [now left|lra].
  - assert (Hax : IZR a < x).
    { destruct Ha as [Ha|Ha]; [exact Ha|]; exfalso.
      apply (Hne a); [now left|exact Ha]. }
    assert (Hk' : forall k, In k (b :: t) -> In k (keys tbl))
      by (intros k Hin; apply Hk; now right).
    rewrite drift_scan_step.
    destruct (Rltb (IZR a) x && Rltb x (IZR b)) eqn:E.
    + apply encloses_true in E.
      destruct (interpolate_ok a b) as [v Hv];
        [apply Hk; now left | apply Hk'; now left | exact E |].
      rewrite Hv; cbn [bind].
      destruct (drift_scan_total (b :: t) (Some v) Hk') as [r [Hr Hn]].
      rewrite Hr; destruct r as [w|]; [eauto|].
      exfalso; now apply Hn.
    + apply encloses_false in E; destruct E as [E|E]; [lra|].
      apply IH; auto.
      * intros k Hin; apply Hne; now right.
      * exists h; split; [|exact Hx].
        destruct Hh as [<-|Hh]; [lra|exact Hh].
Qed.

End Scan.

(** ** Sorted keys *)

Lemma StronglySorted_sides (l1 l2 : list Z) (d1 d2 k : Z) :
  StronglySorted Z.le (l1 ++ d1 :: d2 :: l2) ->
  In k (l1 ++ d1 :: d2 :: l2) -> (k <= d1)%Z \/ (d2 <= k)%Z.
Proof.
  induction l1 as [|a l1 IH]; simpl; intros Hs Hin.
  - inversion Hs as [|? ? Hs' _]; subst.
    inversion Hs' as [|? ? _ Hall]; subst.
    rewrite Forall_forall in Hall.
    destruct Hin as [<-|[<-|Hin]]; [lia|lia|right; now apply Hall].
  - inversion Hs as [|? ? Hs' Hall]; subst.
    rewrite Forall_forall in Hall.
    destruct Hin as [<-|Hin]; [|now apply IH].
    left; apply Hall, in_or_app; right; now left.
Qed.

Lemma StronglySorted_head (a : Z) (t : list Z) (k : Z) :
  StronglySorted Z.le (a :: t) -> In k (a :: t) -> (a <= k)%Z.
Proof.
  intros Hs [<-|Hin]; [lia|].
  inversion Hs as [|? ? _ Hall]; subst.
  rewrite Forall_forall in Hall; now apply Hall.
Qed.

Lemma NoDup_getitem (d : dict) (k : Z) (v : R) :
  NoDup (keys d) -> In (k, v) d -> dict_getitem d (IZR k) = Ok v.
Proof.
  induction d as [|[k' v'] d IH]; simpl; [easy|].
  intros Hnd [Heq|Hin].
  - injection Heq as -> ->.
    now rewrite (proj2 (Reqb_true _ _) eq_refl).
  - inversion Hnd as [|? ? Hnotin Hnd']; subst.
    destruct (Reqb (IZR k') (IZR k)) eqn:E; [|now apply IH].
    apply Reqb_true, eq_IZR in E; subst; exfalso; apply Hnotin.
    unfold keys; apply in_map_iff; now exists (k, v).
Qed.

(** ** The lookups of a calculator *)

Section Lookup.

Variable self : BallisticCalculator.
Variable x : R.

Local Abbreviation drops := (drop_data self).
Local Abbreviation winds := (WIND_DRIFT_DATA self).

(** Exact hits. *)

Lemma get_bullet_drop_key (k : Z) (v : R) :
  NoDup (keys drops) -> In (k, v) drops -> x = IZR k ->
  get_bullet_drop self x = Ok (Some v).
Proof.
  intros Hnd Hin ->; unfold get_bullet_drop.
  assert (Hc : dict_contains drops (IZR k) = true).
  { apply dict_contains_true; exists k; split; [|reflexivity].
    unfold keys; apply in_map_iff; now exists (k, v). }
  now rewrite Hc, (NoDup_getitem _ _ _ Hnd Hin).
Qed.

Lemma base_drift_lookup_key (k : Z) (v : R) :
  NoDup (keys winds) -> In (k, v) winds -> x = IZR k ->
  base_drift_lookup self x = Ok (Some v).
Proof.
  intros Hnd Hin ->; unfold base_drift_lookup.
  assert (Hc : dict_contains winds (IZR k) = true).
  { apply dict_contains_true; exists k; split; [|reflexivity].
    unfold keys; apply in_map_iff; now exists (k, v). }
  now rewrite Hc, (NoDup_getitem _ _ _ Hnd Hin).
Qed.

(** Between two neighbouring keys. *)

Lemma between_not_key (tbl : dict) (d1 d2 : Z) (v1 v2 : R) :
  neighbours tbl d1 d2 v1 v2 -> IZR d1 < x < IZR d2 ->
  dict_contains tbl x = false.
Proof.
  intros [[l1 [l2 Hl]] _] Hx; apply dict_contains_false; intros k Hk Heq.
  apply sorted_In in Hk; rewrite Hl in Hk.
  pose proof (sorted_StronglySorted (keys tbl)) as Hs; rewrite Hl in Hs.
  destruct (StronglySorted_sides _ _ _ _ _ Hs Hk) as [H|H];
    apply IZR_le in H; lra.
Qed.

Lemma get_bullet_drop_between (d1 d2 : Z) (v1 v2 : R) :
  NoDup (keys drops) -> neighbours drops d1 d2 v1 v2 ->
  IZR d1 < x < IZR d2 ->
  get_bullet_drop self x
  = Ok (Some (v1 + (v2 - v1) * ((x - IZR d1) / (IZR d2 - IZR d1)))).
Proof.
  intros Hnd Hn Hx; unfold get_bullet_drop.
  rewrite (between_not_key _ _ _ _ _ Hn Hx).
  destruct Hn as [[l1 [l2 Hl]] [H1 H2]].
  pose proof (sorted_StronglySorted (keys drops)) as Hs.
  assert (Hd1 : In d1 (sorted (keys drops)))
    by (rewrite Hl; apply in_or_app; right; now left).
  assert (Hd2 : In d2 (sorted (keys drops)))
    by (rewrite Hl; apply in_or_app; right; right; now left).
  destruct (py_min_ok (sorted (keys drops))) as [lo Hlo];
    [intros E; now rewrite E in Hd1|].
  destruct (py_max_ok (sorted (keys drops))) as [hi Hhi];
    [intros E; now rewrite E in Hd1|].
  rewrite Hlo, Hhi; cbn [bind].
  apply py_min_spec in Hlo as [_ Hlo]; apply py_max_spec in Hhi as [_ Hhi].
  apply Hlo, IZR_le in Hd1; apply Hhi, IZR_le in Hd2.
  rewrite (proj2 (Rltb_false _ _)), (proj2 (Rltb_false _ _)) by lra.
  rewrite Hl in Hs |- *; rewrite drop_scan_adjacent by assumption.
  rewrite (interpolate_eq _ _ _ _ v1 v2); auto using NoDup_getitem; lra.
Qed.

Lemma base_drift_lookup_between (d1 d2 : Z) (v1 v2 : R) :
  NoDup (keys winds) -> neighbours winds d1 d2 v1 v2 ->
  IZR d1 < x < IZR d2 ->
  base_drift_lookup self x
  = Ok (Some (v1 + (v2 - v1) * ((x - IZR d1) / (IZR d2 - IZR d1)))).
Proof.
  intros Hnd Hn Hx; unfold base_drift_lookup.
  rewrite (between_not_key _ _ _ _ _ Hn Hx).
  destruct Hn as [[l1 [l2 Hl]] [H1 H2]].
  pose proof (sorted_StronglySorted (keys winds)) as Hs.
  rewrite Hl in Hs |- *; rewrite drift_scan_adjacent by assumption.
  rewrite (interpolate_eq _ _ _ _ v1 v2); auto using NoDup_getitem; lra.
Qed.

End Lookup.

Section Range.

Variable self : BallisticCalculator.
Variable x : R.

Local Abbreviation drops := (drop_data self).
Local Abbreviation winds := (WIND_DRIFT_DATA self).

Lemma sorted_keys_nonempty (tbl : dict) :
  tbl <> [] -> sorted (keys tbl) <> [].
Proof.
  intros Hne E; apply sorted_nil in E.
  destruct tbl; [now apply Hne|discriminate].
Qed.

(** Outside the keys of the table. *)

Lemma outside_not_key (tbl : dict) :
  (forall k, In k (keys tbl) -> x < IZR k) \/
  (forall k, In k (keys tbl) -> IZR k < x) ->
  dict_contains tbl x = false.
Proof.
  intros H; apply dict_contains_false; intros k Hk Heq.
  destruct H as [H|H]; specialize (H k Hk); lra.
Qed.

Lemma get_bullet_drop_outside :
  drops <> [] ->
  (forall k, In k (keys drops) -> x < IZR k) \/
  (forall k, In k (keys drops) -> IZR k < x) ->
  get_bullet_drop self x = Ok None.
Proof.
  intros Hne H; unfold get_bullet_drop.
  rewrite (outside_not_key _ H).
  destruct (py_min_ok _ (sorted_keys_nonempty _ Hne)) as [lo Hlo].
  destruct (py_max_ok _ (sorted_keys_nonempty _ Hne)) as [hi Hhi].
  rewrite Hlo, Hhi; cbn [bind].
  apply py_min_spec in Hlo as [Hlo _]; apply py_max_spec in Hhi as [Hhi _].
  apply (proj1 (sorted_In _ _)) in Hlo, Hhi.
  destruct H as [H|H].
  - now rewrite (proj2 (Rltb_true _ _) (H lo Hlo)).
  - rewrite (proj2 (Rltb_true _ _) (H hi Hhi)).
    now destruct (Rltb x (IZR lo)).
Qed.

Lemma base_drift_lookup_outside :
  (forall k, In k (keys winds) -> x < IZR k) \/
  (forall k, In k (keys winds) -> IZR k < x) ->
  base_drift_lookup self x = Ok None.
Proof.
  intros H; unfold base_drift_lookup.
  rewrite (outside_not_key _ H).
  apply drift_scan_outside.
  destruct H as [H|H]; [left|right]; intros k Hk;
    apply (proj1 (sorted_In _ _)) in Hk; apply H in Hk; lra.
Qed.

(** Within the keys of the table. *)

Lemma get_bullet_drop_in_range (lo hi : Z) :
  In lo (keys drops) -> In hi (keys drops) ->
  IZR lo <= x <= IZR hi ->
  exists v, get_bullet_drop self x = Ok (Some v).
Proof.
  intros Hlo Hhi Hx; unfold get_bullet_drop.
  destruct (dict_contains drops x) eqn:Hc.
  - destruct (dict_getitem_contains _ _ Hc) as [v Hv].
    rewrite Hv; simpl; eauto.
  - assert (Hne : sorted (keys drops) <> [])
      by (intros E; apply sorted_In in Hlo; now rewrite E in Hlo).
    destruct (py_min_ok _ Hne) as [lo' Hlo'].
    destruct (py_max_ok _ Hne) as [hi' Hhi'].
    rewrite Hlo', Hhi'; cbn [bind].
    apply py_min_spec in Hlo' as [_ Hlo'].
    apply py_max_spec in Hhi' as [_ Hhi'].
    specialize (Hlo' lo (proj2 (sorted_In _ _) Hlo)); apply IZR_le in Hlo'.
    specialize (Hhi' hi (proj2 (sorted_In _ _) Hhi)); apply IZR_le in Hhi'.
    rewrite (proj2 (Rltb_false _ _)), (proj2 (Rltb_false _ _)) by lra.
    pose proof (sorted_StronglySorted (keys drops)) as Hs.
    destruct (sorted (keys drops)) as [|a t] eqn:E; [easy|].
    apply drop_scan_in_range.
    + intros k Hk; apply sorted_In; now rewrite E.
    + intros k Hk; apply (proj1 (dict_contains_false _ _) Hc).
      apply sorted_In; now rewrite E.
    + apply sorted_In in Hlo; rewrite E in Hlo.
      apply (StronglySorted_head _ _ _ Hs), IZR_le in Hlo; lra.
    + exists hi; split; [|lra].
      rewrite <- E; now apply sorted_In.
Qed.

Lemma base_drift_lookup_in_range (lo hi : Z) :
  In lo (keys winds) -> In hi (keys winds) ->
  IZR lo <= x <= IZR hi ->
  exists v, base_drift_lookup self x = Ok (Some v).
Proof.
  intros Hlo Hhi Hx; unfold base_drift_lookup.
  destruct (dict_contains winds x) eqn:Hc.
  - destruct (dict_getitem_contains _ _ Hc) as [v Hv].
    rewrite Hv; simpl; eauto.
  - pose proof (sorted_StronglySorted (keys winds)) as Hs.
    destruct (sorted (keys winds)) as [|a t] eqn:E.
    { apply sorted_In in Hlo; now rewrite E in Hlo. }
    apply drift_scan_in_range.
    + intros k Hk; apply sorted_In; now rewrite E.
    + intros k Hk; apply (proj1 (dict_contains_false _ _) Hc).
      apply sorted_In; now rewrite E.
    + apply sorted_In in Hlo; rewrite E in Hlo.
      apply (StronglySorted_head _ _ _ Hs), IZR_le in Hlo; lra.
    + exists hi; split; [|lra].
      rewrite <- E; now apply sorted_In.
Qed.

(** Neither lookup raises. *)

Lemma get_bullet_drop_total :
  drops <> [] -> exists r, get_bullet_drop self x = Ok r.
Proof.
  intros Hne; unfold get_bullet_drop.
  destruct (dict_contains drops x) eqn:Hc.
  - destruct (dict_getitem_contains _ _ Hc) as [v Hv].
    rewrite Hv; simpl; eauto.
  - destruct (py_min_ok _ (sorted_keys_nonempty _ Hne)) as [lo Hlo].
    destruct (py_max_ok _ (sorted_keys_nonempty _ Hne)) as [hi Hhi].
    rewrite Hlo, Hhi; cbn [bind].
    destruct (Rltb x (IZR lo)); [eauto|].
    destruct (Rltb (IZR hi) x); [eauto|].
    apply drop_scan_total; intros k; apply sorted_In.
Qed.

Lemma base_drift_lookup_total :
  exists r, base_drift_lookup self x = Ok r.
Proof.
  unfold base_drift_lookup.
  destruct (dict_contains winds x) eqn:Hc.
  - destruct (dict_getitem_contains _ _ Hc) as [v Hv].
    rewrite Hv; simpl; eauto.
  - destruct (drift_scan_total winds x (sorted (keys winds)) None)
      as [r [Hr _]]; [intros k; apply sorted_In|eauto].
Qed.

(** A drop is only found at a distance between two keys of the table. *)

Lemma get_bullet_drop_some (v : R) :
  get_bullet_drop self x = Ok (Some v) ->
  exists lo hi, In lo (keys drops) /\ In hi (keys drops) /\
                IZR lo <= x <= IZR hi.
Proof.
  unfold get_bullet_drop.
  destruct (dict_contains drops x) eqn:Hc.
  - intros _; apply dict_contains_true in Hc as [k [Hk <-]].
    exists k, k; repeat split; auto; lra.
  - destruct (py_min (sorted (keys drops))) as [lo|] eqn:Hlo; [|easy].
    cbn [bind]; destruct (Rltb x (IZR lo)) eqn:E1; [easy|].
    destruct (py_max (sorted (keys drops))) as [hi|] eqn:Hhi; [|easy].
    cbn [bind]; destruct (Rltb (IZR hi) x) eqn:E2; [easy|].
    intros _; apply Rltb_false in E1, E2.
    apply py_min_spec in Hlo as [Hlo _]; apply py_max_spec in Hhi as [Hhi _].
    apply (proj1 (sorted_In _ _)) in Hlo, Hhi; exists lo, hi; auto.
Qed.

End Range.

(** ** Rounding *)

Lemma py_round_near (x : R) (n : Z) :
  IZR n - 1 / 2 < x < IZR n + 1 / 2 -> py_round x = n.
Proof.
  intros Hx; unfold py_round.
  pose proof (Zfloor_bound x) as Hf.
  assert (Hc : (Zfloor x = n - 1 \/ Zfloor x = n)%Z).
  { assert (H1 : IZR (n - 2) < IZR (Zfloor x))
      by (rewrite minus_IZR; lra).
    assert (H2 : IZR (Zfloor x) < IZR (n + 1))
      by (rewrite plus_IZR; lra).
    apply lt_IZR in H1, H2; lia. }
  destruct Hc as [Hc|Hc]; rewrite Hc in *.
  - rewrite minus_IZR in *.
    rewrite (proj2 (Rltb_false _ _)), (proj2 (Rltb_true _ _)) by lra; lia.
  - rewrite (proj2 (Rltb_true _ _)) by lra; reflexivity.
Qed.

(** The result is a nearest integer. *)

Lemma py_round_nearest (x : R) : Rabs (IZR (py_round x) - x) <= 1 / 2.
Proof.
  unfold py_round; pose proof (Zfloor_bound x) as Hf.
  destruct (Rltb (x - IZR (Zfloor x)) (1 / 2)) eqn:E1.
  - apply Rltb_true in E1; apply Rabs_le; lra.
  - apply Rltb_false in E1.
    destruct (Rltb (1 / 2) (x - IZR (Zfloor x))) eqn:E2.
    + rewrite plus_IZR; apply Rabs_le; lra.
    + apply Rltb_false in E2.
      destruct (Z.even (Zfloor x)); rewrite ?plus_IZR; apply Rabs_le; lra.
Qed.

Lemma py_round_nonneg (x : R) : 0 <= x -> (0 <= py_round x)%Z.
Proof.
  intros Hx; unfold py_round.
  assert (Hf : (0 <= Zfloor x)%Z) by (apply Zfloor_lub; simpl; lra).
  destruct (Rltb _ _); [lia|].
  destruct (Rltb _ _); [lia|].
  destruct (Z.even _); lia.
Qed.

(** Ties go to the even neighbour on both sides of zero, so rounding
    commutes with negation. *)

Lemma py_round_opp (x : R) : py_round (- x) = (- py_round x)%Z.
Proof.
  pose proof (Zfloor_bound x) as Hf.
  destruct (Req_dec_T x (IZR (Zfloor x))) as [Hint|Hfrac].
  - assert (Hn : Zfloor (- x) = (- Zfloor x)%Z)
      by (apply Zfloor_eq; rewrite opp_IZR; lra).
    unfold py_round; rewrite Hn, opp_IZR.
    rewrite !(proj2 (Rltb_true _ (1 / 2))) by lra; reflexivity.
  - assert (Hn : Zfloor (- x) = (- Zfloor x - 1)%Z)
      by (apply Zfloor_eq; rewrite minus_IZR, opp_IZR; lra).
    unfold py_round; rewrite Hn, minus_IZR, opp_IZR.
    destruct (Rltb (x - IZR (Zfloor x)) (1 / 2)) eqn:E1.
    + apply Rltb_true in E1.
      rewrite (proj2 (Rltb_false _ _)), (proj2 (Rltb_true _ _)) by lra; lia.
    + apply Rltb_false in E1.
      destruct (Rltb (1 / 2) (x - IZR (Zfloor x))) eqn:E2.
      * apply Rltb_true in E2.
        rewrite (proj2 (Rltb_true _ _)) by lra; lia.
      * apply Rltb_false in E2.
        rewrite !(proj2 (Rltb_false _ _)) by lra.
        replace (- Zfloor x - 1)%Z with (- (Zfloor x + 1))%Z by lia.
        rewrite Z.even_opp, Z.even_add; simpl.
        destruct (Z.even (Zfloor x)); simpl; lia.
Qed.

(** The click count, [abs(round(moa * 4))], is the rounded magnitude. *)

Lemma abs_round_magnitude (moa : R) :
  Z.abs (py_round (moa * IZR CLICKS_PER_MOA))
  = py_round (Rabs moa * IZR CLICKS_PER_MOA).
Proof.
  unfold CLICKS_PER_MOA; destruct (Rle_dec 0 moa) as [Hp|Hn].
  - rewrite Rabs_pos_eq by exact Hp.
    apply Z.abs_eq, py_round_nonneg; lra.
  - rewrite Rabs_left by lra.
    replace (- moa * 4) with (- (moa * 4)) by lra.
    rewrite py_round_opp.
    assert (H : (0 <= py_round (- (moa * 4)))%Z)
      by (apply py_round_nonneg; lra).
    rewrite py_round_opp in H; lia.
Qed.

(** ** Wind resolution and click conversion *)

Section Engine.

Variable self : BallisticCalculator.
Variables distance_yards wind_speed wind_angle : R.

Lemma calculate_wind_drift_none :
  base_drift_lookup self distance_yards = Ok None ->
  calculate_wind_drift self distance_yards wind_speed wind_angle = Ok None.
Proof. intros H; unfold calculate_wind_drift; now rewrite H. Qed.

Lemma calculate_wind_drift_some (base_drift : R) :
  base_drift_lookup self distance_yards = Ok (Some base_drift) ->
  calculate_wind_drift self distance_yards wind_speed wind_angle
  = Ok (Some (if Rleb 0 wind_angle && Rleb wind_angle 180
              then - drift_magnitude wind_speed wind_angle base_drift
              else drift_magnitude wind_speed wind_angle base_drift)).
Proof.
  intros H; unfold calculate_wind_drift, drift_magnitude.
  rewrite H; cbn [bind]; rewrite py_div_ok by lra; cbn [bind].
  now destruct (Rleb 0 wind_angle && Rleb wind_angle 180).
Qed.

Lemma calculate_wind_drift_total :
  exists r,
    calculate_wind_drift self distance_yards wind_speed wind_angle = Ok r.
Proof.
  destruct (base_drift_lookup_total self distance_yards) as [[b|] Hb].
  - rewrite (calculate_wind_drift_some _ Hb); eauto.
  - rewrite (calculate_wind_drift_none Hb); eauto.
Qed.

Lemma calculate_adjustments_none :
  get_bullet_drop self distance_yards = Ok None ->
  calculate_adjustments self distance_yards wind_speed wind_angle
  = Ok (None, None).
Proof. intros H; unfold calculate_adjustments; now rewrite H. Qed.

Lemma calculate_adjustments_some (drop_inches : R) (drift : option R) :
  distance_yards <> 0 ->
  get_bullet_drop self distance_yards = Ok (Some drop_inches) ->
  calculate_wind_drift self distance_yards wind_speed wind_angle
  = Ok drift ->
  calculate_adjustments self distance_yards wind_speed wind_angle
  = Ok (Some (elevation_of distance_yards drop_inches),
        option_map (windage_of distance_yards) drift).
Proof.
  intros Hd Hdrop Hdrift; unfold calculate_adjustments.
  assert (Hm : MOA_CONVERSION * (distance_yards / 100) <> 0).
  { unfold MOA_CONVERSION; intros E.
    apply Rmult_integral in E as [E|E]; [lra|].
    apply Hd; lra. }
  rewrite Hdrop; cbn [bind].
  rewrite (py_div_ok distance_yards 100) by lra; cbn [bind].
  rewrite py_div_ok by exact Hm; cbn [bind].
  rewrite Hdrift; cbn [bind].
  destruct drift as [drift_inches|]; [|reflexivity].
  rewrite py_div_ok by exact Hm; reflexivity.
Qed.

(** At distance zero a drop that was found cannot be turned into an
    angle: the division raises. *)

Lemma calculate_adjustments_zero (drop_inches : R) :
  distance_yards = 0 ->
  get_bullet_drop self distance_yards = Ok (Some drop_inches) ->
  calculate_adjustments self distance_yards wind_speed wind_angle
  = Raise ZeroDivisionError.
Proof.
  intros Hd Hdrop; unfold calculate_adjustments.
  rewrite Hdrop; cbn [bind].
  rewrite (py_div_ok distance_yards 100) by lra; cbn [bind].
  replace (MOA_CONVERSION * (distance_yards / 100)) with 0
    by (rewrite Hd; unfold MOA_CONVERSION; lra).
  now rewrite py_div_zero.
Qed.

End Engine.

(** ** The tables of the source *)

Lemma drop_keys : keys (drop_data calculator) = table_keys.
Proof. reflexivity. Qed.

Lemma wind_keys : keys (WIND_DRIFT_DATA calculator) = table_keys.
Proof. reflexivity. Qed.

Lemma sorted_table_keys : sorted table_keys = table_keys.
Proof. reflexivity. Qed.

Lemma NoDup_table_keys : NoDup table_keys.
Proof.
  unfold table_keys.
  repeat (constructor;
          [ simpl; intros H;
            repeat (destruct H as [H|H]; [discriminate H|]); exact H |]).
  constructor.
Qed.

Lemma table_keys_bounds (k : Z) : In k table_keys -> (100 <= k <= 1000)%Z.
Proof.
  unfold table_keys; simpl; intros H.
  repeat (destruct H as [H|H]; [lia|]); contradiction.
Qed.

Lemma drop_data_nonempty : drop_data calculator <> [].
Proof. discriminate. Qed.

Lemma NoDup_drop_keys : NoDup (keys (drop_data calculator)).
Proof. rewrite drop_keys; exact NoDup_table_keys. Qed.

Lemma NoDup_wind_keys : NoDup (keys (WIND_DRIFT_DATA calculator)).
Proof. rewrite wind_keys; exact NoDup_table_keys. Qed.

(** The smallest and the largest key of both tables. *)

Lemma table_min : py_min (sorted table_keys) = Ok 100%Z.
Proof. reflexivity. Qed.

Lemma table_max : py_max (sorted table_keys) = Ok 1000%Z.
Proof. reflexivity. Qed.

(** The keys are strictly increasing. *)

Lemma table_keys_increasing : StronglySorted Z.lt table_keys.
Proof.
  unfold table_keys.
  repeat (constructor; [|repeat (constructor; [lia|]); constructor]).
  constructor.
Qed.

(** Entries of the source's tables used in the examples below. *)

Lemma drop_500 : In (500%Z, -81.23) (drop_data calculator).
Proof. simpl; do 4 right; now left. Qed.

Lemma drop_600 : In (600%Z, -125.47) (drop_data calculator).
Proof. simpl; do 5 right; now left. Qed.

Lemma wind_500 : In (500%Z, 14.6) (WIND_DRIFT_DATA calculator).
Proof. simpl; do 4 right; now left. Qed.

Lemma wind_600 : In (600%Z, 21.8) (WIND_DRIFT_DATA calculator).
Proof. simpl; do 5 right; now left. Qed.

Lemma drop_neighbours_500_600 :
  neighbours (drop_data calculator) 500 600 (-81.23) (-125.47).
Proof.
  split; [|split; [exact drop_500|exact drop_600]].
  now exists [100; 200; 300; 400]%Z, [700; 800; 900; 1000]%Z.
Qed.

Lemma wind_neighbours_500_600 :
  neighbours (WIND_DRIFT_DATA calculator) 500 600 14.6 21.8.
Proof.
  split; [|split; [exact wind_500|exact wind_600]].
  now exists [100; 200; 300; 400]%Z, [700; 800; 900; 1000]%Z.
Qed.

(** * The lookups of the source's calculator *)

(** C6.  A distance equal to a key of a table gets the value stored under
    that key, as it is stored: from get_bullet_drop for the drop table, and
    as the base drift of calculate_wind_drift for the drift table. *)

Theorem lookup_at_key (x : R) (k : Z) :
  x = IZR k ->
  (forall v, In (k, v) (drop_data calculator) ->
             get_bullet_drop calculator x = Ok (Some v)) /\
  (forall w, In (k, w) (WIND_DRIFT_DATA calculator) ->
             base_drift_lookup calculator x = Ok (Some w)).
Proof.
  intros Hx; split; intros v Hin.
  - exact (get_bullet_drop_key _ _ _ _ NoDup_drop_keys Hin Hx).
  - exact (base_drift_lookup_key _ _ _ _ NoDup_wind_keys Hin Hx).
Qed.

Lemma lookup_at_key_500 :
  get_bullet_drop calculator 500 = Ok (Some (-81.23)) /\
  base_drift_lookup calculator 500 = Ok (Some 14.6).
Proof.
  destruct (lookup_at_key 500 500 eq_refl) as [Hd Hw]; split.
  - exact (Hd _ drop_500).
  - exact (Hw _ wind_500).
Defined.

(** C1.  Strictly between two neighbouring keys [d1 < d2] that store [v1]
    and [v2], both lookups return
    [v1 + (v2 - v1) * (x - d1) / (d2 - d1)]. *)

Theorem lookup_between_keys (x : R) (d1 d2 : Z) :
  IZR d1 < x < IZR d2 ->
  (forall v1 v2,
      neighbours (drop_data calculator) d1 d2 v1 v2 ->
      get_bullet_drop calculator x
      = Ok (Some (v1 + (v2 - v1) * (x - IZR d1) / (IZR d2 - IZR d1)))) /\
  (forall w1 w2,
      neighbours (WIND_DRIFT_DATA calculator) d1 d2 w1 w2 ->
      base_drift_lookup calculator x
      = Ok (Some (w1 + (w2 - w1) * (x - IZR d1) / (IZR d2 - IZR d1)))).
Proof.
  intros Hx; split; intros v1 v2 Hn.
  - rewrite (get_bullet_drop_between _ _ _ _ _ _ NoDup_drop_keys Hn Hx).
    do 2 f_equal; unfold Rdiv; ring.
  - rewrite (base_drift_lookup_between _ _ _ _ _ _ NoDup_wind_keys Hn Hx).
    do 2 f_equal; unfold Rdiv; ring.
Qed.

Lemma lookup_between_keys_550 :
  get_bullet_drop calculator 550
  = Ok (Some (-81.23 + (-125.47 - -81.23) * (550 - 500) / (600 - 500))) /\
  base_drift_lookup calculator 550
  = Ok (Some (14.6 + (21.8 - 14.6) * (550 - 500) / (600 - 500))).
Proof.
  assert (Hx : IZR 500 < 550 < IZR 600) by lra.
  destruct (lookup_between_keys 550 500 600 Hx) as [Hd Hw]; split.
  - exact (Hd _ _ drop_neighbours_500_600).
  - exact (Hw _ _ wind_neighbours_500_600).
Defined.

(** The weight [(x - d1) / (d2 - d1)] of the second neighbour lies
    strictly between 0 and 1, so the interpolated value lies between the
    two stored values. *)

Lemma weight_bounds (x d1 d2 : R) :
  d1 < x < d2 -> 0 < (x - d1) / (d2 - d1) < 1.
Proof.
  intros Hx; split.
  - apply Rdiv_lt_0_compat; lra.
  - apply Rmult_lt_reg_r with (d2 - d1); [lra|].
    unfold Rdiv; rewrite Rmult_assoc, Rinv_l by lra; lra.
Qed.

Lemma convex_between (v1 v2 t : R) :
  0 < t < 1 ->
  Rmin v1 v2 <= v1 + (v2 - v1) * t <= Rmax v1 v2 /\
  (v1 <> v2 -> Rmin v1 v2 < v1 + (v2 - v1) * t < Rmax v1 v2).
Proof.
  intros Ht; unfold Rmin, Rmax.
  destruct (Rle_dec v1 v2) as [Hle|Hgt]; split; try intros Hne; nra.
Qed.

(** Neighbours of a list are a pair of the list zipped with its tail. *)

Lemma adjacent_pairs (l l1 l2 : list Z) (d1 d2 : Z) :
  l = l1 ++ d1 :: d2 :: l2 -> In (d1, d2) (combine l (tl l)).
Proof.
  revert l; induction l1 as [|a l1 IH]; intros l ->.
  - now left.
  - change ((a :: l1) ++ d1 :: d2 :: l2) with (a :: (l1 ++ d1 :: d2 :: l2)).
    cbn [tl]; specialize (IH _ eq_refl).
    destruct (l1 ++ d1 :: d2 :: l2) as [|b rest] eqn:E; [now destruct l1|].
    right; exact IH.
Qed.

(** The drop table is monotonic: between neighbouring keys the stored drop
    decreases. *)

Lemma drop_table_decreasing (d1 d2 : Z) (v1 v2 : R) :
  neighbours (drop_data calculator) d1 d2 v1 v2 -> v2 < v1.
Proof.
  intros [[l1 [l2 Hl]] [H1 H2]].
  rewrite drop_keys, sorted_table_keys in Hl.
  apply adjacent_pairs in Hl; simpl in Hl, H1, H2.
  repeat (destruct Hl as [Hl|Hl];
          [ apply pair_equal_spec in Hl as [<- <-];
            repeat (destruct H1 as [H1|H1];
                    [ apply pair_equal_spec in H1 as [H1 <-];
                      try discriminate H1 |]);
            try contradiction;
            repeat (destruct H2 as [H2|H2];
                    [ apply pair_equal_spec in H2 as [H2 <-];
                      try discriminate H2 |]);
            try contradiction; lra |]).
  contradiction.
Qed.

(** C9.  Strictly between two neighbouring keys, the drop returned lies
    strictly between the two neighbouring stored drops, the smaller of
    which is the one of the larger key (the table is monotonic); at 550
    yards, between -81.23 at 500 and -125.47 at 600, it is -103.35. *)

Theorem drop_between_neighbours :
  (forall (x : R) (d1 d2 : Z) (v1 v2 : R),
      neighbours (drop_data calculator) d1 d2 v1 v2 ->
      IZR d1 < x < IZR d2 ->
      exists v,
        get_bullet_drop calculator x = Ok (Some v) /\ v2 < v < v1) /\
  get_bullet_drop calculator 550 = Ok (Some (-103.35)).
Proof.
  split.
  - intros x d1 d2 v1 v2 Hn Hx.
    rewrite (get_bullet_drop_between _ _ _ _ _ _ NoDup_drop_keys Hn Hx).
    eexists; split; [reflexivity|].
    pose proof (drop_table_decreasing _ _ _ _ Hn) as Hdec.
    destruct (convex_between v1 v2 _ (weight_bounds _ _ _ Hx)) as [_ Hs].
    unfold Rmin, Rmax in Hs.
    destruct (Rle_dec v1 v2); [lra|apply Hs; lra].
  - assert (Hx : IZR 500 < 550 < IZR 600) by lra.
    rewrite (get_bullet_drop_between _ _ _ _ _ _ NoDup_drop_keys
               drop_neighbours_500_600 Hx).
    do 2 f_equal; lra.
Qed.

Lemma drop_between_neighbours_550 :
  exists v,
    get_bullet_drop calculator 550 = Ok (Some v) /\ -125.47 < v < -81.23.
Proof.
  apply (proj1 drop_between_neighbours 550 500%Z 600%Z).
  - exact drop_neighbours_500_600.
  - lra.
Defined.

(** C2.  Below the smallest key, 100, or above the largest, 1000, both
    functions return [None]: neither extrapolates. *)

Theorem outside_table_unavailable (x wind_speed wind_angle : R) :
  x < 100 \/ 1000 < x ->
  get_bullet_drop calculator x = Ok None /\
  calculate_wind_drift calculator x wind_speed wind_angle = Ok None.
Proof.
  intros Hx.
  assert (Hout : (forall k, In k table_keys -> x < IZR k) \/
                 (forall k, In k table_keys -> IZR k < x)).
  { destruct Hx as [Hx|Hx]; [left|right]; intros k Hk;
      apply table_keys_bounds in Hk as [H1 H2];
      apply IZR_le in H1, H2; lra. }
  split.
  - apply get_bullet_drop_outside; [exact drop_data_nonempty|].
    now rewrite drop_keys.
  - apply calculate_wind_drift_none, base_drift_lookup_outside.
    now rewrite wind_keys.
Qed.

Lemma outside_table_unavailable_50 :
  get_bullet_drop calculator 50 = Ok None /\
  calculate_wind_drift calculator 50 10 90 = Ok None.
Proof. apply outside_table_unavailable; left; lra. Defined.

Example outside_table_1500 :
  get_bullet_drop calculator 1500 = Ok None /\
  calculate_wind_drift calculator 1500 10 90 = Ok None.
Proof.
  assert (Hout : (forall k, In k table_keys -> 1500 < IZR k) \/
                 (forall k, In k table_keys -> IZR k < 1500)).
  { right; intros k Hk; apply table_keys_bounds in Hk as [_ H2].
    apply IZR_le in H2; lra. }
  split.
  - apply get_bullet_drop_outside; [exact drop_data_nonempty|].
    now rewrite drop_keys.
  - apply calculate_wind_drift_none, base_drift_lookup_outside.
    now rewrite wind_keys.
Qed.

(** A distance within a list of keys is one of them or lies strictly
    between two neighbours. *)

Lemma key_or_enclosed (x : R) (t : list Z) (a : Z) :
  IZR a <= x ->
  (exists h, In h (a :: t) /\ x <= IZR h) ->
  (exists k, In k (a :: t) /\ x = IZR k) \/
  (exists l1 l2 d1 d2,
      a :: t = l1 ++ d1 :: d2 :: l2 /\ IZR d1 < x < IZR d2).
Proof.
  revert a; induction t as [|b t IH]; intros a Ha [h [Hh Hx]].
  - destruct Hh as [<-|[]]; left; exists a; split; [now left|lra].
  - destruct (Req_dec_T x (IZR a)) as [Heq|Hne].
    { left; exists a; split; [now left|exact Heq]. }
    destruct (Rlt_dec x (IZR b)) as [Hlt|Hge].
    { right; exists [], t, a, b; split; [reflexivity|lra]. }
    destruct (IH b) as [[k [Hk Hkx]]|[l1 [l2 [d1 [d2 [Hl Hd]]]]]].
    + lra.
    + exists h; split; [|exact Hx].
      destruct Hh as [<-|Hh]; [lra|exact Hh].
    + left; exists k; split; [now right|exact Hkx].
    + right; exists (a :: l1), l2, d1, d2; split; [|exact Hd].
      simpl; now rewrite Hl.
Qed.

(** C10.  From 100 to 1000 yards both lookups find a value: the distance
    is a key or lies strictly between two neighbouring keys, so the
    fall-through [None] of either loop is not reached. *)

Theorem in_range_available (x : R) :
  100 <= x <= 1000 ->
  (exists v, get_bullet_drop calculator x = Ok (Some v)) /\
  (exists b, base_drift_lookup calculator x = Ok (Some b)) /\
  ((exists k, In k table_keys /\ x = IZR k) \/
   (exists l1 l2 d1 d2,
       sorted table_keys = l1 ++ d1 :: d2 :: l2 /\ IZR d1 < x < IZR d2)).
Proof.
  intros Hx.
  assert (H100 : In 100%Z table_keys) by (now left).
  assert (H1000 : In 1000%Z table_keys) by (simpl; do 9 right; now left).
  repeat split.
  - apply (get_bullet_drop_in_range calculator x 100 1000);
      rewrite ?drop_keys; auto.
  - apply (base_drift_lookup_in_range calculator x 100 1000);
      rewrite ?wind_keys; auto.
  - rewrite sorted_table_keys; apply key_or_enclosed; [exact (proj1 Hx)|].
    exists 1000%Z; split; [exact H1000|exact (proj2 Hx)].
Qed.

Lemma in_range_available_725 :
  (exists v, get_bullet_drop calculator 725 = Ok (Some v)) /\
  (exists b, base_drift_lookup calculator 725 = Ok (Some b)) /\
  ((exists k, In k table_keys /\ 725 = IZR k) \/
   (exists l1 l2 d1 d2,
       sorted table_keys = l1 ++ d1 :: d2 :: l2 /\ IZR d1 < 725 < IZR d2)).
Proof. apply in_range_available; lra. Defined.

(** * Wind drift *)

(** The sine of the quarter turns. *)

Lemma sin_radians_90 : sin (radians 90) = 1.
Proof.
  replace (radians 90) with (PI / 2) by (unfold radians; lra).
  exact sin_PI2.
Qed.

Lemma sin_radians_270 : sin (radians 270) = -1.
Proof.
  replace (radians 270) with (3 * (PI / 2)) by (unfold radians; lra).
  exact sin_3PI2.
Qed.

(** With positive stored drifts, the base drift found is positive. *)

Lemma interpolate_positive (tbl : dict) (d1 d2 : Z) (x v : R) :
  (forall k w, In (k, w) tbl -> 0 < w) ->
  IZR d1 < x < IZR d2 ->
  interpolate tbl d1 d2 x = Ok v -> 0 < v.
Proof.
  intros Hpos Hx; unfold interpolate.
  destruct (dict_getitem tbl (IZR d1)) as [v1|] eqn:E1; [|discriminate].
  destruct (dict_getitem tbl (IZR d2)) as [v2|] eqn:E2; [|discriminate].
  cbn [bind]; rewrite minus_IZR, py_div_ok by lra; cbn [bind].
  intros [= <-].
  apply dict_getitem_In in E1 as [k1 [H1 _]], E2 as [k2 [H2 _]].
  apply Hpos in H1, H2.
  destruct (convex_between v1 v2 _ (weight_bounds _ _ _ Hx)) as [[Hlo _] _].
  unfold Rmin in Hlo; destruct (Rle_dec v1 v2); lra.
Qed.

Lemma drift_scan_positive (tbl : dict) (x : R) (l : list Z)
  (base : option R) (b : R) :
  (forall k w, In (k, w) tbl -> 0 < w) ->
  (forall v, base = Some v -> 0 < v) ->
  drift_scan tbl l x base = Ok (Some b) -> 0 < b.
Proof.
  intros Hpos; revert base; induction l as [|d1 [|d2 l] IH];
    intros base Hbase; try (simpl; intros [= ->]; now apply Hbase).
  rewrite drift_scan_step.
  destruct (Rltb (IZR d1) x && Rltb x (IZR d2)) eqn:E.
  - apply encloses_true in E.
    destruct (interpolate tbl d1 d2 x) as [v|] eqn:Hv; [|discriminate].
    cbn [bind]; apply IH; intros ? [= <-].
    exact (interpolate_positive _ _ _ _ _ Hpos E Hv).
  - now apply IH.
Qed.

Lemma base_drift_positive (self : BallisticCalculator) (x b : R) :
  (forall k w, In (k, w) (WIND_DRIFT_DATA self) -> 0 < w) ->
  base_drift_lookup self x = Ok (Some b) -> 0 < b.
Proof.
  intros Hpos; unfold base_drift_lookup.
  destruct (dict_contains (WIND_DRIFT_DATA self) x).
  - destruct (dict_getitem (WIND_DRIFT_DATA self) x) as [v|] eqn:E;
      [|discriminate].
    cbn [bind]; intros [= <-].
    apply dict_getitem_In in E as [k [Hin _]]; exact (Hpos _ _ Hin).
  - apply drift_scan_positive; [exact Hpos|discriminate].
Qed.

Lemma wind_table_positive (k : Z) (w : R) :
  In (k, w) (WIND_DRIFT_DATA calculator) -> 0 < w.
Proof.
  simpl; intros H.
  repeat (destruct H as [H|H];
          [apply pair_equal_spec in H as [_ <-]; lra|]).
  contradiction.
Qed.

Lemma wind_drift_500_90 :
  calculate_wind_drift calculator 500 10 90 = Ok (Some (-14.6)).
Proof.
  rewrite (calculate_wind_drift_some _ _ _ _ 14.6).
  - rewrite (proj2 (Rleb_true _ _)), (proj2 (Rleb_true _ _)) by lra.
    unfold drift_magnitude; rewrite sin_radians_90.
    rewrite Rabs_pos_eq by lra; cbn [andb]; do 2 f_equal; lra.
  - exact (base_drift_lookup_key _ _ _ _ NoDup_wind_keys wind_500 eq_refl).
Qed.

Lemma wind_drift_500_270 :
  calculate_wind_drift calculator 500 10 270 = Ok (Some 14.6).
Proof.
  rewrite (calculate_wind_drift_some _ _ _ _ 14.6).
  - rewrite (proj2 (Rleb_true 0 _)), (proj2 (Rleb_false _ _)) by lra.
    unfold drift_magnitude; rewrite sin_radians_270.
    rewrite Rabs_left by lra; cbn [andb]; do 2 f_equal; lra.
  - exact (base_drift_lookup_key _ _ _ _ NoDup_wind_keys wind_500 eq_refl).
Qed.

(** C3.  In range, the drift returned is the base drift of the distance
    times a tenth of the crosswind [|s * sin(radians(a))|], a magnitude
    that is not negative, negated when [0 <= a <= 180] and as it is
    otherwise, for every wind speed [s]; a 10 mph wind at 500 yards gives
    -14.6 from 90 degrees and 14.6 from 270 degrees. *)

Theorem wind_drift_formula :
  (forall x s a : R,
      100 <= x <= 1000 ->
      exists b,
        base_drift_lookup calculator x = Ok (Some b) /\
        0 <= b * (Rabs (s * sin (radians a)) / 10.0) /\
        (0 <= a <= 180 ->
         calculate_wind_drift calculator x s a
         = Ok (Some (- (b * (Rabs (s * sin (radians a)) / 10.0))))) /\
        (~ 0 <= a <= 180 ->
         calculate_wind_drift calculator x s a
         = Ok (Some (b * (Rabs (s * sin (radians a)) / 10.0))))) /\
  calculate_wind_drift calculator 500 10 90 = Ok (Some (-14.6)) /\
  calculate_wind_drift calculator 500 10 270 = Ok (Some 14.6).
Proof.
  split; [|split].
  - intros x s a Hx.
    destruct (base_drift_lookup_in_range calculator x 100 1000) as [b Hb];
      rewrite ?wind_keys; [now left|simpl; do 9 right; now left|lra|].
    exists b; split; [exact Hb|]; split.
    { pose proof (base_drift_positive _ _ _ wind_table_positive Hb).
      pose proof (Rabs_pos (s * sin (radians a))).
      apply Rmult_le_pos; lra. }
    rewrite (calculate_wind_drift_some _ _ _ _ _ Hb).
    unfold drift_magnitude; split; intros Ha.
    + rewrite (proj2 (Rleb_true _ _)), (proj2 (Rleb_true _ _)) by lra.
      reflexivity.
    + destruct (Rleb 0 a) eqn:E1; [|reflexivity].
      destruct (Rleb a 180) eqn:E2; [|reflexivity].
      apply Rleb_true in E1, E2; exfalso; apply Ha; lra.
  - exact wind_drift_500_90.
  - exact wind_drift_500_270.
Qed.

Lemma wind_drift_formula_45 :
  exists b,
    base_drift_lookup calculator 500 = Ok (Some b) /\
    0 <= b * (Rabs (10 * sin (radians 45)) / 10.0) /\
    (0 <= 45 <= 180 ->
     calculate_wind_drift calculator 500 10 45
     = Ok (Some (- (b * (Rabs (10 * sin (radians 45)) / 10.0))))) /\
    (~ 0 <= 45 <= 180 ->
     calculate_wind_drift calculator 500 10 45
     = Ok (Some (b * (Rabs (10 * sin (radians 45)) / 10.0)))).
Proof. apply (proj1 wind_drift_formula 500 10 45); lra. Defined.

(** * Clicks and directions *)

Lemma in_range_nonzero (x : R) : 100 <= x <= 1000 -> x <> 0.
Proof. lra. Qed.

Lemma nonzero_500 : 500 <> 0.
Proof. lra. Qed.

Lemma drop_at_500 : get_bullet_drop calculator 500 = Ok (Some (-81.23)).
Proof.
  exact (get_bullet_drop_key _ _ _ _ NoDup_drop_keys drop_500 eq_refl).
Qed.

(** -81.23 inches at 500 yards are -15.52 MOA, 62 clicks up; -14.6 inches
    are -2.79 MOA, 11 clicks left. *)

Lemma elevation_500 : elevation_of 500 (-81.23) = ElevationData.mk 62 "UP".
Proof.
  unfold elevation_of, moa_at, MOA_CONVERSION, CLICKS_PER_MOA.
  rewrite (py_round_near _ (-62)) by lra.
  now rewrite (proj2 (Rltb_true _ _)) by lra.
Qed.

Lemma windage_500 : windage_of 500 (-14.6) = WindageData.mk 11 "LEFT".
Proof.
  unfold windage_of, moa_at, MOA_CONVERSION, CLICKS_PER_MOA.
  rewrite (py_round_near _ (-11)) by lra.
  now rewrite (proj2 (Rltb_true _ _)) by lra.
Qed.

Example adjustments_500_10_90 :
  calculate_adjustments calculator 500 10 90
  = Ok (Some (ElevationData.mk 62 "UP"), Some (WindageData.mk 11 "LEFT")).
Proof.
  rewrite (calculate_adjustments_some _ _ _ _ _ (Some (-14.6))
             nonzero_500 drop_at_500 wind_drift_500_90).
  cbn [option_map]; now rewrite elevation_500, windage_500.
Qed.

(** The count the source computes, [abs(round(moa * 4))], is a click
    count of the angle. *)

Lemma click_count_abs_round (moa : R) :
  click_count (Z.abs (py_round (moa * IZR CLICKS_PER_MOA))) moa.
Proof.
  rewrite abs_round_magnitude; unfold CLICKS_PER_MOA, click_count.
  pose proof (Rabs_pos moa) as Hm.
  split; [apply py_round_nonneg; lra|].
  split; [|reflexivity].
  pose proof (py_round_nearest (Rabs moa * 4)); lra.
Qed.

Lemma moderate_wind_10 : Rabs 10 <= 1000.
Proof. apply Rabs_le; lra. Qed.

(** Four times the 15.52 MOA of the drop at 500 yards, 62.07, is away
    from ties. *)

Example away_from_ties_500 :
  away_from_ties (Rabs (-81.23 / (1.047 * (500 / 100))) * 4).
Proof.
  intros n; rewrite (Rabs_left (-81.23 / (1.047 * (500 / 100)))) by lra.
  destruct (Z_le_gt_dec n 61) as [Hn|Hn].
  - apply IZR_le in Hn; rewrite Rabs_pos_eq; lra.
  - assert (H : (62 <= n)%Z) by lia.
    apply IZR_le in H; rewrite Rabs_left; lra.
Qed.

(** C4.  In range, for a wind of up to 1000 mph from 0 to 360 degrees,
    the angle of an offset is [offset / (1.047 * (d / 100))] and its click
    count is four times the magnitude of the angle rounded to a nearest
    integer (exactly [round] of it away from ties, one of the two
    neighbours near a tie), for the drop and for the drift alike; the drop
    of -81.23 at 500 yards gives 62 clicks up. *)

Theorem clicks_of_offsets :
  (forall x s a : R,
      100 <= x <= 1000 -> Rabs s <= 1000 -> 0 <= a <= 360 ->
      exists drop drift e w,
        get_bullet_drop calculator x = Ok (Some drop) /\
        calculate_wind_drift calculator x s a = Ok (Some drift) /\
        calculate_adjustments calculator x s a = Ok (Some e, Some w) /\
        click_count (ElevationData.clicks e)
                    (drop / (1.047 * (x / 100))) /\
        click_count (WindageData.clicks w)
                    (drift / (1.047 * (x / 100)))) /\
  (forall s a : R,
      Rabs s <= 1000 ->
      exists w,
        calculate_adjustments calculator 500 s a
        = Ok (Some (ElevationData.mk 62 "UP"), w)).
Proof.
  split.
  - intros x s a Hx _ _.
    destruct (get_bullet_drop_in_range calculator x 100 1000) as [drop Hd];
      rewrite ?drop_keys; [now left|simpl; do 9 right; now left|lra|].
    destruct (base_drift_lookup_in_range calculator x 100 1000) as [b Hb];
      rewrite ?wind_keys; [now left|simpl; do 9 right; now left|lra|].
    pose proof (calculate_wind_drift_some _ _ s a _ Hb) as Hw.
    eexists drop, _, _, _; split; [exact Hd|]; split; [exact Hw|].
    split.
    + rewrite (calculate_adjustments_some _ _ _ _ _ _
                 (in_range_nonzero x Hx) Hd Hw); reflexivity.
    + split; apply click_count_abs_round.
  - intros s a _.
    destruct (calculate_wind_drift_total calculator 500 s a) as [dr Hdr].
    rewrite (calculate_adjustments_some _ _ _ _ _ dr
               nonzero_500 drop_at_500 Hdr).
    rewrite elevation_500; eauto.
Qed.

Lemma clicks_of_offsets_550 :
  exists drop drift e w,
    get_bullet_drop calculator 550 = Ok (Some drop) /\
    calculate_wind_drift calculator 550 10 90 = Ok (Some drift) /\
    calculate_adjustments calculator 550 10 90 = Ok (Some e, Some w) /\
    click_count (ElevationData.clicks e)
                (drop / (1.047 * (550 / 100))) /\
    click_count (WindageData.clicks w)
                (drift / (1.047 * (550 / 100))).
Proof.
  apply (proj1 clicks_of_offsets 550 10 90);
    [lra|exact moderate_wind_10|lra].
Defined.

(** What calculate_adjustments returns, by the outcome of the two
    lookups, for every calculator and every input. *)

Lemma calculate_adjustments_cases (self : BallisticCalculator) (x s a : R) :
  forall r,
    calculate_adjustments self x s a = Ok r ->
    (get_bullet_drop self x = Ok None /\ r = (None, None)) \/
    (exists drop drift,
        get_bullet_drop self x = Ok (Some drop) /\
        calculate_wind_drift self x s a = Ok drift /\
        r = (Some (elevation_of x drop), option_map (windage_of x) drift)).
Proof.
  intros r Hr.
  destruct (get_bullet_drop self x) as [[drop|]|e] eqn:Hd.
  - right; destruct (calculate_wind_drift_total self x s a) as [dr Hdr].
    destruct (Req_dec_T x 0) as [Hz|Hnz].
    + rewrite (calculate_adjustments_zero _ _ _ _ _ Hz Hd) in Hr.
      discriminate Hr.
    + rewrite (calculate_adjustments_some _ _ _ _ _ _ Hnz Hd Hdr) in Hr.
      injection Hr as <-; exists drop, dr; auto.
  - left; rewrite (calculate_adjustments_none _ _ _ _ Hd) in Hr.
    injection Hr as <-; auto.
  - unfold calculate_adjustments in Hr; rewrite Hd in Hr; discriminate Hr.
Qed.

(** C8.  In a result of calculate_adjustments the click counts are
    integers that are not negative, the elevation is UP for a negative
    drop and DOWN otherwise, and the windage is LEFT for a negative drift
    and RIGHT otherwise. *)

Theorem clicks_and_directions (self : BallisticCalculator) (x s a : R)
  (elevation : option ElevationData.t) (windage : option WindageData.t) :
  calculate_adjustments self x s a = Ok (elevation, windage) ->
  (forall e,
      elevation = Some e ->
      exists drop,
        get_bullet_drop self x = Ok (Some drop) /\
        (0 <= ElevationData.clicks e)%Z /\
        (drop < 0 -> ElevationData.direction e = "UP"%string) /\
        (0 <= drop -> ElevationData.direction e = "DOWN"%string)) /\
  (forall w,
      windage = Some w ->
      exists drift,
        calculate_wind_drift self x s a = Ok (Some drift) /\
        (0 <= WindageData.clicks w)%Z /\
        (drift < 0 -> WindageData.direction w = "LEFT"%string) /\
        (0 <= drift -> WindageData.direction w = "RIGHT"%string)).
Proof.
  intros Hr.
  destruct (calculate_adjustments_cases _ _ _ _ _ Hr)
    as [[_ Heq]|[drop [drift [Hd [Hw Heq]]]]];
    injection Heq as -> ->.
  - split; intros ? [=].
  - split.
    + intros e [= <-]; exists drop; split; [exact Hd|].
      unfold elevation_of; cbn [ElevationData.clicks ElevationData.direction].
      split; [apply Z.abs_nonneg|]; split; intros Hs.
      * now rewrite (proj2 (Rltb_true _ _)) by exact Hs.
      * now rewrite (proj2 (Rltb_false _ _)) by exact Hs.
    + destruct drift as [drift|]; intros w [= <-].
      exists drift; split; [exact Hw|].
      unfold windage_of; cbn [WindageData.clicks WindageData.direction].
      split; [apply Z.abs_nonneg|]; split; intros Hs.
      * now rewrite (proj2 (Rltb_true _ _)) by exact Hs.
      * now rewrite (proj2 (Rltb_false _ _)) by exact Hs.
Qed.

Lemma clicks_and_directions_500 :
  (forall e,
      Some (ElevationData.mk 62 "UP") = Some e ->
      exists drop,
        get_bullet_drop calculator 500 = Ok (Some drop) /\
        (0 <= ElevationData.clicks e)%Z /\
        (drop < 0 -> ElevationData.direction e = "UP"%string) /\
        (0 <= drop -> ElevationData.direction e = "DOWN"%string)) /\
  (forall w,
      Some (WindageData.mk 11 "LEFT") = Some w ->
      exists drift,
        calculate_wind_drift calculator 500 10 90 = Ok (Some drift) /\
        (0 <= WindageData.clicks w)%Z /\
        (drift < 0 -> WindageData.direction w = "LEFT"%string) /\
        (0 <= drift -> WindageData.direction w = "RIGHT"%string)).
Proof.
  exact (clicks_and_directions calculator 500 10 90 _ _ adjustments_500_10_90).
Defined.

(** * Missing data *)

Lemma positive_keys_nonzero (self : BallisticCalculator) (x drop : R) :
  (forall k, In k (keys (drop_data self)) -> (0 < k)%Z) ->
  get_bullet_drop self x = Ok (Some drop) -> x <> 0.
Proof.
  intros Hpos Hd.
  destruct (get_bullet_drop_some _ _ _ Hd) as [lo [hi [Hlo [_ Hx]]]].
  apply Hpos, IZR_lt in Hlo; lra.
Qed.

(** C5.  With a drop table of ordinary size that is not empty and has
    positive keys, as the source's is, missing data raises nothing at any
    distance, wind speed or wind angle: a distance without a drop gives
    [(None, None)], and a distance with a drop but without a base drift
    gives [None] for the windage and an elevation whose clicks are a click
    count of the drop's angle and whose direction is UP for a negative
    drop and DOWN otherwise.  With a wind of up to 1000 mph and a drift
    table of ordinary size nothing is raised when no data is missing
    either. *)

Theorem missing_data_never_raises (self : BallisticCalculator) (x s a : R) :
  drop_data self <> [] ->
  (forall k, In k (keys (drop_data self)) -> (0 < k)%Z) ->
  moderate_table (drop_data self) ->
  (get_bullet_drop self x = Ok None ->
   calculate_adjustments self x s a = Ok (None, None)) /\
  (forall drop,
      get_bullet_drop self x = Ok (Some drop) ->
      calculate_wind_drift self x s a = Ok None ->
      exists e,
        calculate_adjustments self x s a = Ok (Some e, None) /\
        click_count (ElevationData.clicks e)
                    (drop / (1.047 * (x / 100))) /\
        (drop < 0 -> ElevationData.direction e = "UP"%string) /\
        (0 <= drop -> ElevationData.direction e = "DOWN"%string)) /\
  (Rabs s <= 1000 -> moderate_table (WIND_DRIFT_DATA self) ->
   exists r, calculate_adjustments self x s a = Ok r).
Proof.
  intros Hne Hpos _; split; [|split].
  - apply calculate_adjustments_none.
  - intros drop Hd Hw.
    rewrite (calculate_adjustments_some _ _ _ _ _ _
               (positive_keys_nonzero _ _ _ Hpos Hd) Hd Hw).
    cbn [option_map]; eexists; split; [reflexivity|].
    unfold elevation_of; cbn [ElevationData.clicks ElevationData.direction].
    split; [apply click_count_abs_round|]; split; intros Hs.
    + now rewrite (proj2 (Rltb_true _ _)) by exact Hs.
    + now rewrite (proj2 (Rltb_false _ _)) by exact Hs.
  - intros _ _.
    destruct (get_bullet_drop_total self x Hne) as [[drop|] Hd].
    + destruct (calculate_wind_drift_total self x s a) as [dr Hdr].
      rewrite (calculate_adjustments_some _ _ _ _ _ _
                 (positive_keys_nonzero _ _ _ Hpos Hd) Hd Hdr); eauto.
    + rewrite (calculate_adjustments_none _ _ _ _ Hd); eauto.
Qed.

Lemma positive_table_keys (k : Z) :
  In k (keys (drop_data calculator)) -> (0 < k)%Z.
Proof.
  rewrite drop_keys; intros Hk; apply table_keys_bounds in Hk; lia.
Qed.

Lemma drop_at_50 : get_bullet_drop calculator 50 = Ok None.
Proof.
  apply get_bullet_drop_outside; [exact drop_data_nonempty|].
  left; intros k Hk.
  rewrite drop_keys in Hk; apply table_keys_bounds in Hk as [H1 _].
  apply IZR_le in H1; lra.
Qed.

Lemma short_drop_at_500 :
  get_bullet_drop short_drift_calculator 500 = Ok (Some (-81.23)).
Proof. exact drop_at_500. Qed.

Lemma short_drift_at_500 :
  calculate_wind_drift short_drift_calculator 500 10 90 = Ok None.
Proof.
  apply calculate_wind_drift_none, base_drift_lookup_outside.
  right; simpl; intros k [<-|[<-|[]]]; lra.
Qed.

Example short_drift_adjustments_500 :
  calculate_adjustments short_drift_calculator 500 10 90
  = Ok (Some (ElevationData.mk 62 "UP"), None).
Proof.
  rewrite (calculate_adjustments_some _ _ _ _ _ None
             nonzero_500 short_drop_at_500 short_drift_at_500).
  cbn [option_map]; now rewrite elevation_500.
Qed.

Lemma moderate_drop_table : moderate_table (drop_data calculator).
Proof.
  intros k v H; simpl in H.
  repeat (destruct H as [H|H];
          [ apply pair_equal_spec in H as [<- <-];
            split; apply Rabs_le; lra |]).
  contradiction.
Qed.

Lemma moderate_wind_table : moderate_table (WIND_DRIFT_DATA calculator).
Proof.
  intros k v H; simpl in H.
  repeat (destruct H as [H|H];
          [ apply pair_equal_spec in H as [<- <-];
            split; apply Rabs_le; lra |]).
  contradiction.
Qed.

Lemma missing_data_never_raises_examples :
  calculate_adjustments calculator 50 10 90 = Ok (None, None) /\
  (exists e,
      calculate_adjustments short_drift_calculator 500 10 90
      = Ok (Some e, None) /\
      click_count (ElevationData.clicks e)
                  (-81.23 / (1.047 * (500 / 100))) /\
      (-81.23 < 0 -> ElevationData.direction e = "UP"%string) /\
      (0 <= -81.23 -> ElevationData.direction e = "DOWN"%string)) /\
  exists r, calculate_adjustments calculator 500 10 90 = Ok r.
Proof.
  split; [|split].
  - exact (proj1 (missing_data_never_raises calculator 50 10 90
                    drop_data_nonempty positive_table_keys
                    moderate_drop_table)
                 drop_at_50).
  - exact (proj1 (proj2 (missing_data_never_raises short_drift_calculator
                           500 10 90 drop_data_nonempty positive_table_keys
                           moderate_drop_table))
                 _ short_drop_at_500 short_drift_at_500).
  - exact (proj2 (proj2 (missing_data_never_raises calculator 500 10 90
                           drop_data_nonempty positive_table_keys
                           moderate_drop_table))
                 moderate_wind_10 moderate_wind_table).
Defined.

(** * Head wind *)

(** At 0 degrees the sine is zero and the wind drifts the bullet by
    nothing, whatever its speed. *)

Lemma sin_radians_0 : sin (radians 0) = 0.
Proof.
  replace (radians 0) with 0 by (unfold radians; lra).
  exact sin_0.
Qed.

Lemma head_wind_no_drift (self : BallisticCalculator) (x s b : R) :
  base_drift_lookup self x = Ok (Some b) ->
  calculate_wind_drift self x s 0 = Ok (Some 0).
Proof.
  intros Hb; rewrite (calculate_wind_drift_some _ _ _ _ _ Hb).
  unfold drift_magnitude; rewrite sin_radians_0, Rmult_0_r, Rabs_R0.
  destruct (Rleb 0 0 && Rleb 0 180); do 2 f_equal; lra.
Qed.

Lemma still_air_no_drift (self : BallisticCalculator) (x a b : R) :
  base_drift_lookup self x = Ok (Some b) ->
  calculate_wind_drift self x 0 a = Ok (Some 0).
Proof.
  intros Hb; rewrite (calculate_wind_drift_some _ _ _ _ _ Hb).
  unfold drift_magnitude; rewrite Rmult_0_l, Rabs_R0.
  destruct (Rleb 0 a && Rleb a 180); do 2 f_equal; lra.
Qed.

(** * Further properties of the lookups *)

(** ** What a lookup can return *)

Lemma interpolate_inv (tbl : dict) (d1 d2 : Z) (x v : R) :
  interpolate tbl d1 d2 x = Ok v ->
  exists v1 v2,
    In (d1, v1) tbl /\ In (d2, v2) tbl /\
    v = v1 + (v2 - v1) * ((x - IZR d1) / (IZR d2 - IZR d1)).
Proof.
  unfold interpolate.
  destruct (dict_getitem tbl (IZR d1)) as [v1|] eqn:E1; [|discriminate].
  destruct (dict_getitem tbl (IZR d2)) as [v2|] eqn:E2; [|discriminate].
  cbn [bind]; unfold py_div.
  destruct (Reqb (IZR (d2 - d1)) 0); [discriminate|].
  cbn [bind]; intros [= <-].
  apply dict_getitem_In in E1 as [k1 [H1 K1]], E2 as [k2 [H2 K2]].
  apply eq_IZR in K1, K2; subst k1 k2.
  exists v1, v2; repeat split; auto.
  now rewrite minus_IZR.
Qed.

Lemma drop_scan_some_inv (tbl : dict) (x : R) (l : list Z) (v : R) :
  drop_scan tbl l x = Ok (Some v) ->
  exists l1 l2 d1 d2,
    l = l1 ++ d1 :: d2 :: l2 /\ IZR d1 < x < IZR d2 /\
    interpolate tbl d1 d2 x = Ok v.
Proof.
  induction l as [|d1 [|d2 l] IH]; try discriminate.
  rewrite drop_scan_step.
  destruct (Rltb (IZR d1) x && Rltb x (IZR d2)) eqn:E.
  - apply encloses_true in E.
    destruct (interpolate tbl d1 d2 x) as [w|] eqn:Hw; [|discriminate].
    cbn [bind]; intros [= <-].
    now exists [], l, d1, d2.
  - intros H; destruct (IH H) as [l1 [l2 [e1 [e2 [Hl [Hx Hv]]]]]].
    exists (d1 :: l1), l2, e1, e2; split; [|auto].
    simpl; now rewrite Hl.
Qed.

(** On sorted keys at most one pair encloses a distance, so the loop that
    runs to its end finds what the loop that stops at the first pair
    finds. *)

Lemma scans_agree (tbl : dict) (x : R) (l : list Z) :
  StronglySorted Z.le l ->
  drift_scan tbl l x None = drop_scan tbl l x.
Proof.
  induction l as [|d1 [|d2 l] IH]; intros Hs; try reflexivity.
  rewrite drift_scan_step, drop_scan_step.
  inversion Hs as [|? ? Hs' _]; subst.
  destruct (Rltb (IZR d1) x && Rltb x (IZR d2)) eqn:E; [|now apply IH].
  apply encloses_true in E.
  destruct (interpolate tbl d1 d2 x) as [v|]; [|reflexivity].
  cbn [bind]; apply drift_scan_outside; left.
  intros k Hk; apply (StronglySorted_head _ _ _ Hs'), IZR_le in Hk; lra.
Qed.

Lemma base_drift_lookup_as_drop (self self' : BallisticCalculator) (x : R) :
  drop_data self <> [] ->
  WIND_DRIFT_DATA self' = drop_data self ->
  base_drift_lookup self' x = get_bullet_drop self x.
Proof.
  intros Hne Heq; unfold base_drift_lookup, get_bullet_drop; rewrite Heq.
  destruct (dict_contains (drop_data self) x) eqn:Hc; [reflexivity|].
  pose proof (sorted_StronglySorted (keys (drop_data self))) as Hs.
  destruct (py_min_ok _ (sorted_keys_nonempty _ Hne)) as [lo Hlo].
  destruct (py_max_ok _ (sorted_keys_nonempty _ Hne)) as [hi Hhi].
  rewrite Hlo, Hhi, scans_agree by exact Hs; cbn [bind].
  apply py_min_spec in Hlo as [_ Hlo]; apply py_max_spec in Hhi as [_ Hhi].
  destruct (Rltb x (IZR lo)) eqn:E1.
  { apply Rltb_true in E1; apply drop_scan_outside; left.
    intros k Hk; apply Hlo, IZR_le in Hk; lra. }
  destruct (Rltb (IZR hi) x) eqn:E2; [|reflexivity].
  apply Rltb_true in E2; apply drop_scan_outside; right.
  intros k Hk; apply Hhi, IZR_le in Hk; lra.
Qed.

(** X1.  On one non-empty table the two lookups are the same function of
    the distance: get_bullet_drop with its range guard and early return,
    and the base-drift lookup of calculate_wind_drift without either. *)

Theorem lookups_agree (self self' : BallisticCalculator) (x : R) :
  drop_data self <> [] ->
  WIND_DRIFT_DATA self' = drop_data self ->
  base_drift_lookup self' x = get_bullet_drop self x.
Proof. exact (base_drift_lookup_as_drop self self' x). Qed.

Lemma lookups_agree_drop_table :
  base_drift_lookup (one_table (drop_data calculator)) 550
  = get_bullet_drop calculator 550.
Proof.
  exact (lookups_agree calculator (one_table (drop_data calculator)) 550
           drop_data_nonempty eq_refl).
Defined.

Lemma get_bullet_drop_inv (self : BallisticCalculator) (x v : R) :
  get_bullet_drop self x = Ok (Some v) ->
  (exists k, In (k, v) (drop_data self) /\ x = IZR k) \/
  (exists d1 d2 v1 v2,
      neighbours (drop_data self) d1 d2 v1 v2 /\
      IZR d1 < x < IZR d2 /\
      v = v1 + (v2 - v1) * ((x - IZR d1) / (IZR d2 - IZR d1))).
Proof.
  unfold get_bullet_drop.
  destruct (dict_contains (drop_data self) x).
  - destruct (dict_getitem (drop_data self) x) as [w|] eqn:E; [|discriminate].
    cbn [bind]; intros [= <-]; left.
    apply dict_getitem_In in E as [k [Hin Hk]]; eauto.
  - destruct (py_min _) as [lo|]; [|discriminate]; cbn [bind].
    destruct (Rltb x (IZR lo)); [discriminate|].
    destruct (py_max _) as [hi|]; [|discriminate]; cbn [bind].
    destruct (Rltb (IZR hi) x); [discriminate|].
    intros H; right.
    apply drop_scan_some_inv in H as [l1 [l2 [d1 [d2 [Hl [Hx Hv]]]]]].
    apply interpolate_inv in Hv as [v1 [v2 [H1 [H2 Hv]]]].
    exists d1, d2, v1, v2; repeat split; eauto; lra.
Qed.

(** X2.  A drop that get_bullet_drop returns is the value stored under a
    key equal to the distance, or the interpolation between two
    neighbouring keys that enclose the distance; it returns nothing
    else. *)

Theorem get_bullet_drop_sound (self : BallisticCalculator) (x v : R) :
  get_bullet_drop self x = Ok (Some v) ->
  (exists k, In (k, v) (drop_data self) /\ x = IZR k) \/
  (exists d1 d2 v1 v2,
      neighbours (drop_data self) d1 d2 v1 v2 /\
      IZR d1 < x < IZR d2 /\
      v = v1 + (v2 - v1) * ((x - IZR d1) / (IZR d2 - IZR d1))).
Proof. exact (get_bullet_drop_inv self x v). Qed.

Lemma get_bullet_drop_sound_550 :
  (exists k, In (k, -103.35) (drop_data calculator) /\ 550 = IZR k) \/
  (exists d1 d2 v1 v2,
      neighbours (drop_data calculator) d1 d2 v1 v2 /\
      IZR d1 < 550 < IZR d2 /\
      -103.35 = v1 + (v2 - v1) * ((550 - IZR d1) / (IZR d2 - IZR d1))).
Proof.
  apply get_bullet_drop_sound.
  assert (Hx : IZR 500 < 550 < IZR 600) by lra.
  rewrite (get_bullet_drop_between _ _ _ _ _ _ NoDup_drop_keys
             drop_neighbours_500_600 Hx).
  do 2 f_equal; lra.
Defined.

(** ** Monotone tables *)

Lemma NoDup_value_unique (d : dict) (k : Z) (v v' : R) :
  NoDup (keys d) -> In (k, v) d -> In (k, v') d -> v = v'.
Proof.
  intros Hnd H1 H2.
  pose proof (NoDup_getitem _ _ _ Hnd H1) as E1.
  pose proof (NoDup_getitem _ _ _ Hnd H2) as E2.
  congruence.
Qed.

Lemma In_keys (d : dict) (k : Z) (v : R) : In (k, v) d -> In k (keys d).
Proof. intros H; unfold keys; apply in_map_iff; now exists (k, v). Qed.

(** A key of the table lies on one side of two neighbouring keys. *)

Lemma neighbours_sides (tbl : dict) (d1 d2 k : Z) (v1 v2 v : R) :
  neighbours tbl d1 d2 v1 v2 -> In (k, v) tbl ->
  (k <= d1)%Z \/ (d2 <= k)%Z.
Proof.
  intros [[l1 [l2 Hl]] _] Hk; apply In_keys, sorted_In in Hk.
  pose proof (sorted_StronglySorted (keys tbl)) as Hs.
  rewrite Hl in Hs, Hk; exact (StronglySorted_sides _ _ _ _ _ Hs Hk).
Qed.

Lemma monotone_table_le (sgn : R) (tbl : dict) (k1 k2 : Z) (v1 v2 : R) :
  NoDup (keys tbl) -> monotone_table sgn tbl ->
  In (k1, v1) tbl -> In (k2, v2) tbl -> (k1 <= k2)%Z ->
  sgn * v1 <= sgn * v2.
Proof.
  intros Hnd Hm H1 H2 Hk.
  destruct (Z.eq_dec k1 k2) as [->|Hne].
  - rewrite (NoDup_value_unique _ _ _ _ Hnd H1 H2); lra.
  - left; apply (Hm k1 k2); auto; lia.
Qed.

(** Between two neighbours of a monotone table the interpolated value lies
    strictly between the stored ones, in the order of the table. *)

Lemma interpolated_in_order (sgn : R) (tbl : dict) (d1 d2 : Z)
  (v1 v2 x : R) :
  monotone_table sgn tbl -> neighbours tbl d1 d2 v1 v2 ->
  IZR d1 < x < IZR d2 ->
  sgn * v1
  < sgn * (v1 + (v2 - v1) * ((x - IZR d1) / (IZR d2 - IZR d1)))
  < sgn * v2.
Proof.
  intros Hm [_ [H1 H2]] Hx.
  assert (Hd : (d1 < d2)%Z) by (apply lt_IZR; lra).
  pose proof (Hm _ _ _ _ H1 H2 Hd) as Hv.
  pose proof (weight_bounds _ _ _ Hx) as Ht.
  set (t := (x - IZR d1) / (IZR d2 - IZR d1)) in *.
  replace (sgn * (v1 + (v2 - v1) * t))
    with (sgn * v1 + (sgn * v2 - sgn * v1) * t) by ring.
  assert (0 < (sgn * v2 - sgn * v1) * t)
    by (apply Rmult_lt_0_compat; lra).
  assert (0 < (sgn * v2 - sgn * v1) * (1 - t))
    by (apply Rmult_lt_0_compat; lra).
  lra.
Qed.

Lemma get_bullet_drop_monotone (self : BallisticCalculator) (sgn : R)
  (x y vx vy : R) :
  NoDup (keys (drop_data self)) ->
  monotone_table sgn (drop_data self) ->
  x < y ->
  get_bullet_drop self x = Ok (Some vx) ->
  get_bullet_drop self y = Ok (Some vy) ->
  sgn * vx < sgn * vy.
Proof.
  intros Hnd Hm Hxy Hx Hy.
  apply get_bullet_drop_inv in Hx, Hy.
  destruct Hx as [[kx [Hkx ->]]|[d1 [d2 [v1 [v2 [Hn [Hx ->]]]]]]];
    destruct Hy as [[ky [Hky ->]]|[e1 [e2 [w1 [w2 [Hn' [Hy ->]]]]]]].
  - apply lt_IZR in Hxy; exact (Hm _ _ _ _ Hkx Hky Hxy).
  - pose proof (interpolated_in_order _ _ _ _ _ _ _ Hm Hn' Hy) as [Hlo _].
    destruct Hn' as [Hadj [Hw1 Hw2]].
    destruct (neighbours_sides _ _ _ _ _ _ _ (conj Hadj (conj Hw1 Hw2)) Hkx)
      as [Hs|Hs]; apply IZR_le in Hs as Hs'; [|lra].
    pose proof (monotone_table_le _ _ _ _ _ _ Hnd Hm Hkx Hw1 Hs); lra.
  - pose proof (interpolated_in_order _ _ _ _ _ _ _ Hm Hn Hx) as [_ Hhi].
    destruct Hn as [Hadj [Hv1 Hv2]].
    destruct (neighbours_sides _ _ _ _ _ _ _ (conj Hadj (conj Hv1 Hv2)) Hky)
      as [Hs|Hs]; apply IZR_le in Hs as Hs'; [lra|].
    pose proof (monotone_table_le _ _ _ _ _ _ Hnd Hm Hv2 Hky Hs); lra.
  - pose proof (interpolated_in_order _ _ _ _ _ _ _ Hm Hn Hx) as [_ Hhi].
    pose proof (interpolated_in_order _ _ _ _ _ _ _ Hm Hn' Hy) as [Hlo _].
    pose proof Hn as [_ [Hv1 Hv2]]; pose proof Hn' as [_ [Hw1 Hw2]].
    destruct (neighbours_sides _ _ _ _ _ _ _ Hn Hw1) as [Hs|Hs].
    + (* the same pair of neighbours *)
      assert (Hd1 : e1 = d1).
      { destruct (neighbours_sides _ _ _ _ _ _ _ Hn' Hv1) as [Hs2|Hs2];
          [lia|apply IZR_le in Hs2; lra]. }
      subst e1.
      assert (Hd2 : e2 = d2).
      { destruct (neighbours_sides _ _ _ _ _ _ _ Hn' Hv2) as [Hs2|Hs2];
          [apply IZR_le in Hs2; lra|].
        destruct (neighbours_sides _ _ _ _ _ _ _ Hn Hw2) as [Hs3|Hs3];
          [apply IZR_le in Hs3; lra|lia]. }
      subst e2.
      rewrite (NoDup_value_unique _ _ _ _ Hnd Hw1 Hv1) in *.
      rewrite (NoDup_value_unique _ _ _ _ Hnd Hw2 Hv2) in *.
      assert (Hd : (d1 < d2)%Z) by (apply lt_IZR; lra).
      pose proof (Hm _ _ _ _ Hv1 Hv2 Hd) as Hv.
      assert (Ht : 0 < (y - x) / (IZR d2 - IZR d1))
        by (apply Rdiv_lt_0_compat; lra).
      assert (Hp : 0 < (sgn * v2 - sgn * v1) * ((y - x) / (IZR d2 - IZR d1)))
        by (apply Rmult_lt_0_compat; lra).
      apply Rlt_0_minus.
      replace (sgn * (v1 + (v2 - v1) * ((y - IZR d1) / (IZR d2 - IZR d1)))
               - sgn * (v1 + (v2 - v1) * ((x - IZR d1) / (IZR d2 - IZR d1))))
        with ((sgn * v2 - sgn * v1) * ((y - x) / (IZR d2 - IZR d1)))
        by (unfold Rdiv; ring).
      exact Hp.
    + pose proof (monotone_table_le _ _ _ _ _ _ Hnd Hm Hv2 Hw1 Hs); lra.
Qed.

Lemma drop_table_monotone : monotone_table (-1) (drop_data calculator).
Proof.
  intros k1 k2 v1 v2 H1 H2 Hk; simpl in H1, H2.
  repeat (destruct H1 as [H1|H1];
          [ apply pair_equal_spec in H1 as [<- <-];
            repeat (destruct H2 as [H2|H2];
                    [ apply pair_equal_spec in H2 as [<- <-];
                      first [lia | lra] |]);
            contradiction |]).
  contradiction.
Qed.

Lemma wind_table_monotone : monotone_table 1 (WIND_DRIFT_DATA calculator).
Proof.
  intros k1 k2 v1 v2 H1 H2 Hk; simpl in H1, H2.
  repeat (destruct H1 as [H1|H1];
          [ apply pair_equal_spec in H1 as [<- <-];
            repeat (destruct H2 as [H2|H2];
                    [ apply pair_equal_spec in H2 as [<- <-];
                      first [lia | lra] |]);
            contradiction |]).
  contradiction.
Qed.

Lemma key_100 : In 100%Z table_keys.
Proof. now left. Qed.

Lemma key_1000 : In 1000%Z table_keys.
Proof. simpl; do 9 right; now left. Qed.

Lemma drop_in_range (x : R) :
  100 <= x <= 1000 -> exists v, get_bullet_drop calculator x = Ok (Some v).
Proof.
  intros Hx; apply (get_bullet_drop_in_range calculator x 100 1000);
    rewrite ?drop_keys; auto using key_100, key_1000.
Qed.

Lemma base_drift_in_range (x : R) :
  100 <= x <= 1000 ->
  exists b, base_drift_lookup calculator x = Ok (Some b).
Proof.
  intros Hx; apply (base_drift_lookup_in_range calculator x 100 1000);
    rewrite ?wind_keys; auto using key_100, key_1000.
Qed.

(** X3.  From 100 to 1000 yards the drop falls as the distance grows: a
    farther target always has a strictly lower (more negative) drop. *)

Theorem drop_falls_with_distance (x y : R) :
  100 <= x -> x < y -> y <= 1000 ->
  exists vx vy,
    get_bullet_drop calculator x = Ok (Some vx) /\
    get_bullet_drop calculator y = Ok (Some vy) /\
    vy < vx.
Proof.
  intros Hx Hxy Hy.
  destruct (drop_in_range x) as [vx Hvx]; [lra|].
  destruct (drop_in_range y) as [vy Hvy]; [lra|].
  exists vx, vy; repeat split; auto.
  pose proof (get_bullet_drop_monotone calculator (-1) x y vx vy
                NoDup_drop_keys drop_table_monotone Hxy Hvx Hvy).
  lra.
Qed.

Lemma drop_falls_with_distance_witness :
  exists vx vy,
    get_bullet_drop calculator 250 = Ok (Some vx) /\
    get_bullet_drop calculator 725 = Ok (Some vy) /\
    vy < vx.
Proof. apply drop_falls_with_distance; lra. Defined.

(** X4.  From 100 to 1000 yards the base drift that calculate_wind_drift
    scales grows strictly with the distance. *)

Theorem base_drift_grows_with_distance (x y : R) :
  100 <= x -> x < y -> y <= 1000 ->
  exists bx by',
    base_drift_lookup calculator x = Ok (Some bx) /\
    base_drift_lookup calculator y = Ok (Some by') /\
    bx < by'.
Proof.
  intros Hx Hxy Hy.
  destruct (base_drift_in_range x) as [bx Hbx]; [lra|].
  destruct (base_drift_in_range y) as [b2 Hb2]; [lra|].
  exists bx, b2; repeat split; auto.
  set (w := one_table (WIND_DRIFT_DATA calculator)).
  assert (Hne : drop_data w <> []) by discriminate.
  rewrite (base_drift_lookup_as_drop w calculator _ Hne eq_refl) in Hbx.
  rewrite (base_drift_lookup_as_drop w calculator _ Hne eq_refl) in Hb2.
  pose proof (get_bullet_drop_monotone w 1 x y bx b2
                NoDup_wind_keys wind_table_monotone Hxy Hbx Hb2).
  lra.
Qed.

Lemma base_drift_grows_with_distance_witness :
  exists bx by',
    base_drift_lookup calculator 250 = Ok (Some bx) /\
    base_drift_lookup calculator 725 = Ok (Some by') /\
    bx < by'.
Proof. apply base_drift_grows_with_distance; lra. Defined.

(** X5.  In range the drop lies between the drops stored at 1000 and at
    100 yards, and the base drift between the drifts stored there: no
    lookup leaves the span of its table. *)

Theorem lookups_within_table_span (x : R) :
  100 <= x <= 1000 ->
  exists v b,
    get_bullet_drop calculator x = Ok (Some v) /\
    base_drift_lookup calculator x = Ok (Some b) /\
    -444.27 <= v <= -1.92 /\ 0.5 <= b <= 71.9.
Proof.
  intros Hx.
  destruct (drop_in_range x Hx) as [v Hv].
  destruct (base_drift_in_range x Hx) as [b Hb].
  exists v, b; split; [exact Hv|]; split; [exact Hb|].
  set (w := one_table (WIND_DRIFT_DATA calculator)).
  assert (Hne : drop_data w <> []) by discriminate.
  pose proof Hb as Hb'.
  rewrite (base_drift_lookup_as_drop w calculator _ Hne eq_refl) in Hb'.
  assert (Hlo : get_bullet_drop calculator 100 = Ok (Some (-1.92))).
  { apply (get_bullet_drop_key _ _ 100 _ NoDup_drop_keys);
      [now left|reflexivity]. }
  assert (Hhi : get_bullet_drop calculator 1000 = Ok (Some (-444.27))).
  { apply (get_bullet_drop_key _ _ 1000 _ NoDup_drop_keys);
      [simpl; do 9 right; now left|reflexivity]. }
  assert (Wlo : get_bullet_drop w 100 = Ok (Some 0.5)).
  { apply (get_bullet_drop_key w _ 100 _ NoDup_wind_keys);
      [now left|reflexivity]. }
  assert (Whi : get_bullet_drop w 1000 = Ok (Some 71.9)).
  { apply (get_bullet_drop_key w _ 1000 _ NoDup_wind_keys);
      [simpl; do 9 right; now left|reflexivity]. }
  assert (Hd : forall a c va vc, a < c ->
             get_bullet_drop calculator a = Ok (Some va) ->
             get_bullet_drop calculator c = Ok (Some vc) -> vc < va).
  { intros a c va vc Hac Ha Hc.
    pose proof (get_bullet_drop_monotone calculator (-1) a c va vc
                  NoDup_drop_keys drop_table_monotone Hac Ha Hc); lra. }
  assert (Hw : forall a c va vc, a < c ->
             get_bullet_drop w a = Ok (Some va) ->
             get_bullet_drop w c = Ok (Some vc) -> va < vc).
  { intros a c va vc Hac Ha Hc.
    pose proof (get_bullet_drop_monotone w 1 a c va vc
                  NoDup_wind_keys wind_table_monotone Hac Ha Hc); lra. }
  destruct Hx as [[Hx1|Hx1] [Hx2|Hx2]].
  - pose proof (Hd _ _ _ _ Hx1 Hlo Hv); pose proof (Hd _ _ _ _ Hx2 Hv Hhi).
    pose proof (Hw _ _ _ _ Hx1 Wlo Hb'); pose proof (Hw _ _ _ _ Hx2 Hb' Whi).
    lra.
  - subst x; rewrite Hhi in Hv; rewrite Whi in Hb'.
    injection Hv as <-; injection Hb' as <-; lra.
  - subst x; rewrite Hlo in Hv; rewrite Wlo in Hb'.
    injection Hv as <-; injection Hb' as <-; lra.
  - lra.
Qed.

Lemma lookups_within_table_span_witness :
  exists v b,
    get_bullet_drop calculator 550 = Ok (Some v) /\
    base_drift_lookup calculator 550 = Ok (Some b) /\
    -444.27 <= v <= -1.92 /\ 0.5 <= b <= 71.9.
Proof. apply lookups_within_table_span; lra. Defined.

(** ** Errors of the lookups *)



(** X6.  The only exception of the lookups is the ValueError of
    get_bullet_drop on an empty drop table, from [min]; on a table with an
    entry it raises nothing, and calculate_wind_drift raises on no table,
    an empty drift table giving [None]. *)



(** * Further properties of the wind drift *)

Lemma sin_radians_mirror (a : R) :
  sin (radians (360 - a)) = - sin (radians a).
Proof.
  replace (radians (360 - a)) with (2 * PI - radians a)
    by (unfold radians; lra).
  rewrite sin_minus, sin_2PI, cos_2PI; ring.
Qed.

Lemma sin_radians_turn (a : R) : sin (radians (a + 360)) = sin (radians a).
Proof.
  replace (radians (a + 360)) with (radians a + 2 * PI)
    by (unfold radians; lra).
  rewrite sin_plus, sin_2PI, cos_2PI; ring.
Qed.

Lemma half_turn_true (a : R) :
  0 <= a <= 180 -> Rleb 0 a && Rleb a 180 = true.
Proof.
  intros Ha; apply andb_true_iff; split; apply Rleb_true; lra.
Qed.

Lemma half_turn_false (a : R) :
  a < 0 \/ 180 < a -> Rleb 0 a && Rleb a 180 = false.
Proof.
  intros Ha; apply andb_false_iff.
  destruct Ha; [left|right]; apply Rleb_false; lra.
Qed.

(** X7.  A wind from the left mirrors the wind from the right: for an
    angle strictly between 0 and 180 degrees, the drift at [360 - a] is
    the opposite of the drift at [a]. *)

Theorem wind_drift_mirror (self : BallisticCalculator) (x s a : R) :
  0 < a < 180 ->
  calculate_wind_drift self x s (360 - a)
  = (d <- calculate_wind_drift self x s a ;; Ok (option_map Ropp d)).
Proof.
  intros Ha.
  destruct (base_drift_lookup self x) as [[b|]|e] eqn:Hb.
  - rewrite !(calculate_wind_drift_some _ _ _ _ _ Hb).
    rewrite (half_turn_true a), (half_turn_false (360 - a)) by lra.
    unfold drift_magnitude; cbn [bind option_map].
    rewrite sin_radians_mirror, Ropp_mult_distr_r_reverse, Rabs_Ropp.
    do 2 f_equal; lra.
  - now rewrite !(calculate_wind_drift_none _ _ _ _ Hb).
  - unfold calculate_wind_drift; now rewrite Hb.
Qed.

Lemma wind_drift_mirror_270 :
  calculate_wind_drift calculator 500 10 (360 - 90)
  = (d <- calculate_wind_drift calculator 500 10 90 ;;
     Ok (option_map Ropp d)).
Proof. apply wind_drift_mirror; lra. Defined.

(** X8.  The angle is not reduced modulo 360: for an angle strictly
    between 0 and 180 degrees, the same direction given as [a + 360]
    falls outside [0, 180] and gets the opposite drift. *)

Theorem wind_drift_full_turn (self : BallisticCalculator) (x s a : R) :
  0 < a < 180 ->
  calculate_wind_drift self x s (a + 360)
  = (d <- calculate_wind_drift self x s a ;; Ok (option_map Ropp d)).
Proof.
  intros Ha.
  destruct (base_drift_lookup self x) as [[b|]|e] eqn:Hb.
  - rewrite !(calculate_wind_drift_some _ _ _ _ _ Hb).
    rewrite (half_turn_true a), (half_turn_false (a + 360)) by lra.
    unfold drift_magnitude; cbn [bind option_map].
    rewrite sin_radians_turn; do 2 f_equal; lra.
  - now rewrite !(calculate_wind_drift_none _ _ _ _ Hb).
  - unfold calculate_wind_drift; now rewrite Hb.
Qed.

Lemma wind_drift_full_turn_450 :
  calculate_wind_drift calculator 500 10 (90 + 360)
  = (d <- calculate_wind_drift calculator 500 10 90 ;;
     Ok (option_map Ropp d)).
Proof. apply wind_drift_full_turn; lra. Defined.

(** X9.  The drift is proportional to the magnitude of the wind speed:
    a wind [k] times as fast drifts [|k|] times as far, and the
    sign of the speed does not matter. *)

Theorem wind_drift_scales (self : BallisticCalculator) (x s a k : R) :
  calculate_wind_drift self x (k * s) a
  = (d <- calculate_wind_drift self x s a ;;
     Ok (option_map (Rmult (Rabs k)) d)).
Proof.
  destruct (base_drift_lookup self x) as [[b|]|e] eqn:Hb.
  - rewrite !(calculate_wind_drift_some _ _ _ _ _ Hb).
    unfold drift_magnitude; cbn [bind option_map].
    rewrite Rmult_assoc, Rabs_mult.
    destruct (Rleb 0 a && Rleb a 180); do 2 f_equal; unfold Rdiv; ring.
  - now rewrite !(calculate_wind_drift_none _ _ _ _ Hb).
  - unfold calculate_wind_drift; now rewrite Hb.
Qed.

(** X10.  No wind angle drifts the bullet farther than the wind of the
    same speed at 90 degrees. *)

Theorem wind_drift_full_value (self : BallisticCalculator) (x s a d : R) :
  calculate_wind_drift self x s a = Ok (Some d) ->
  exists d90,
    calculate_wind_drift self x s 90 = Ok (Some d90) /\
    Rabs d <= Rabs d90.
Proof.
  intros Hd.
  destruct (base_drift_lookup self x) as [[b|]|e] eqn:Hb.
  - rewrite (calculate_wind_drift_some _ _ _ _ _ Hb) in Hd.
    rewrite (calculate_wind_drift_some _ _ _ _ _ Hb).
    rewrite (half_turn_true 90) by lra.
    eexists; split; [reflexivity|].
    assert (Hm : Rabs (drift_magnitude s a b)
                 <= Rabs (drift_magnitude s 90 b)).
    { unfold drift_magnitude; rewrite sin_radians_90, Rmult_1_r.
      assert (Hs : Rabs (s * sin (radians a)) <= Rabs s).
      { rewrite Rabs_mult.
        assert (H1 : Rabs (sin (radians a)) <= 1)
          by (apply Rabs_le; pose proof (SIN_bound (radians a)); lra).
        pose proof (Rabs_pos s); pose proof (Rabs_pos (sin (radians a))).
        nra. }
      pose proof (Rabs_pos (s * sin (radians a))) as H0.
      rewrite (Rabs_mult b (Rabs (s * sin (radians a)) / 10.0)).
      rewrite (Rabs_mult b (Rabs s / 10.0)).
      rewrite (Rabs_pos_eq (Rabs (s * sin (radians a)) / 10.0)) by lra.
      rewrite (Rabs_pos_eq (Rabs s / 10.0)) by lra.
      apply Rmult_le_compat_l; [apply Rabs_pos|lra]. }
    rewrite Rabs_Ropp.
    destruct (Rleb 0 a && Rleb a 180); injection Hd as <-;
      rewrite ?Rabs_Ropp; exact Hm.
  - rewrite (calculate_wind_drift_none _ _ _ _ Hb) in Hd; discriminate.
  - unfold calculate_wind_drift in Hd; rewrite Hb in Hd; discriminate.
Qed.

Lemma sin_radians_30 : sin (radians 30) = 1 / 2.
Proof.
  replace (radians 30) with (PI / 6) by (unfold radians; lra).
  exact sin_PI6.
Qed.

(** A 10 mph wind from 30 degrees at 500 yards drifts half as far as
    from 90 degrees. *)

Lemma wind_drift_500_30 :
  calculate_wind_drift calculator 500 10 30 = Ok (Some (-7.3)).
Proof.
  rewrite (calculate_wind_drift_some _ _ _ _ 14.6).
  - rewrite (half_turn_true 30) by lra.
    unfold drift_magnitude; rewrite sin_radians_30.
    rewrite Rabs_pos_eq by lra; do 2 f_equal; lra.
  - exact (base_drift_lookup_key _ _ _ _ NoDup_wind_keys wind_500 eq_refl).
Qed.

Lemma wind_drift_full_value_30 :
  exists d90,
    calculate_wind_drift calculator 500 10 90 = Ok (Some d90) /\
    Rabs (-7.3) <= Rabs d90.
Proof. exact (wind_drift_full_value _ _ _ _ _ wind_drift_500_30). Defined.

(** * Further properties of the adjustments *)

Lemma py_round_0 : py_round 0 = 0%Z.
Proof. apply py_round_near; simpl; lra. Qed.

Lemma outside_range_drop (x : R) :
  ~ 100 <= x <= 1000 -> get_bullet_drop calculator x = Ok None.
Proof.
  intros Hx; apply get_bullet_drop_outside; [exact drop_data_nonempty|].
  rewrite drop_keys.
  destruct (Rlt_dec x 100) as [Hlo|Hlo]; [left|right]; intros k Hk;
    apply table_keys_bounds in Hk as [H1 H2]; apply IZR_le in H1, H2; lra.
Qed.

(** Drops are negative and base drifts positive over the whole range. *)

Lemma drop_negative (x v : R) :
  get_bullet_drop calculator x = Ok (Some v) -> v < 0.
Proof.
  intros Hv.
  destruct (Rle_dec 100 x) as [H1|H1]; [destruct (Rle_dec x 1000) as [H2|H2]|].
  - assert (Hlo : get_bullet_drop calculator 100 = Ok (Some (-1.92))).
    { apply (get_bullet_drop_key _ _ 100 _ NoDup_drop_keys);
        [now left|reflexivity]. }
    destruct H1 as [H1|H1].
    + pose proof (get_bullet_drop_monotone calculator (-1) 100 x _ _
                    NoDup_drop_keys drop_table_monotone H1 Hlo Hv); lra.
    + subst x; rewrite Hlo in Hv; injection Hv as <-; lra.
  - rewrite outside_range_drop in Hv by lra; discriminate.
  - rewrite outside_range_drop in Hv by lra; discriminate.
Qed.

(** X11.  On the source's tables, for a wind of up to 1000 mph,
    calculate_adjustments has two outcomes only: from 100 to 1000 yards an
    elevation and a windage, the elevation always UP; at every other
    distance [(None, None)].  It never returns an elevation without a
    windage, and never says DOWN. *)

Theorem adjustments_by_range (x s a : R) :
  Rabs s <= 1000 ->
  (100 <= x <= 1000 /\
   exists e w,
     calculate_adjustments calculator x s a = Ok (Some e, Some w) /\
     ElevationData.direction e = "UP"%string) \/
  (~ 100 <= x <= 1000 /\
   calculate_adjustments calculator x s a = Ok (None, None)).
Proof.
  intros _.
  destruct (Rle_dec 100 x) as [H1|H1];
    [destruct (Rle_dec x 1000) as [H2|H2]|].
  - left; split; [lra|].
    destruct (drop_in_range x) as [v Hv]; [lra|].
    destruct (base_drift_in_range x) as [b Hb]; [lra|].
    pose proof (calculate_wind_drift_some _ _ s a _ Hb) as Hw.
    rewrite (calculate_adjustments_some _ _ _ _ _ _
               (in_range_nonzero x (conj H1 H2)) Hv Hw).
    cbn [option_map]; eexists _, _; split; [reflexivity|].
    unfold elevation_of; cbn [ElevationData.direction].
    now rewrite (proj2 (Rltb_true _ _) (drop_negative _ _ Hv)).
  - right; split; [lra|].
    apply calculate_adjustments_none, outside_range_drop; lra.
  - right; split; [lra|].
    apply calculate_adjustments_none, outside_range_drop; lra.
Qed.

Lemma adjustments_by_range_500 :
  (100 <= 500 <= 1000 /\
   exists e w,
     calculate_adjustments calculator 500 10 90 = Ok (Some e, Some w) /\
     ElevationData.direction e = "UP"%string) \/
  (~ 100 <= 500 <= 1000 /\
   calculate_adjustments calculator 500 10 90 = Ok (None, None)).
Proof. exact (adjustments_by_range 500 10 90 moderate_wind_10). Defined.

(** X12.  In range, for a wind of up to 1000 mph, the drift is not
    positive for an angle in [0, 180] and not negative for every other
    angle, where the windage is RIGHT; a negative drift is LEFT, and a
    drift of zero, which a wind at 0 degrees and a wind of no speed give,
    is RIGHT with no clicks. *)

Theorem windage_direction (x s a : R) :
  100 <= x <= 1000 -> Rabs s <= 1000 ->
  exists drift e w,
    calculate_wind_drift calculator x s a = Ok (Some drift) /\
    calculate_adjustments calculator x s a = Ok (Some e, Some w) /\
    (0 <= a <= 180 -> drift <= 0) /\
    (~ 0 <= a <= 180 ->
     0 <= drift /\ WindageData.direction w = "RIGHT"%string) /\
    (drift < 0 -> WindageData.direction w = "LEFT"%string) /\
    (drift = 0 ->
     WindageData.direction w = "RIGHT"%string /\
     WindageData.clicks w = 0%Z) /\
    (a = 0 \/ s = 0 -> drift = 0).
Proof.
  intros Hx _.
  destruct (drop_in_range x Hx) as [v Hv].
  destruct (base_drift_in_range x Hx) as [b Hb].
  pose proof (base_drift_positive _ _ _ wind_table_positive Hb) as Hpos.
  pose proof (calculate_wind_drift_some _ _ s a _ Hb) as Hw.
  pose proof (Rabs_pos (s * sin (radians a))) as Hc.
  assert (Hm : 0 <= drift_magnitude s a b)
    by (unfold drift_magnitude; apply Rmult_le_pos; lra).
  eexists _, _, _; split; [exact Hw|]; split.
  { rewrite (calculate_adjustments_some _ _ _ _ _ _
               (in_range_nonzero x Hx) Hv Hw); reflexivity. }
  unfold windage_of; cbn [WindageData.direction WindageData.clicks].
  split; [|split; [|split; [|split]]].
  - intros Ha; rewrite half_turn_true by exact Ha; lra.
  - intros Ha; rewrite half_turn_false
      by (destruct (Rlt_dec a 0); [now left|right; lra]).
    split; [exact Hm|].
    now rewrite (proj2 (Rltb_false _ _)) by exact Hm.
  - intros Hd; now rewrite (proj2 (Rltb_true _ _)) by exact Hd.
  - intros Hd; rewrite Hd.
    rewrite (proj2 (Rltb_false _ _)) by lra; split; [reflexivity|].
    unfold moa_at, Rdiv; rewrite !Rmult_0_l; now rewrite py_round_0.
  - intros [->| ->].
    + pose proof (head_wind_no_drift _ _ s _ Hb) as H0.
      rewrite (calculate_wind_drift_some _ _ _ _ _ Hb) in H0.
      now injection H0.
    + pose proof (still_air_no_drift _ _ a _ Hb) as H0.
      rewrite (calculate_wind_drift_some _ _ _ _ _ Hb) in H0.
      now injection H0.
Qed.

Lemma windage_direction_500 :
  exists drift e w,
    calculate_wind_drift calculator 500 10 90 = Ok (Some drift) /\
    calculate_adjustments calculator 500 10 90 = Ok (Some e, Some w) /\
    (0 <= 90 <= 180 -> drift <= 0) /\
    (~ 0 <= 90 <= 180 ->
     0 <= drift /\ WindageData.direction w = "RIGHT"%string) /\
    (drift < 0 -> WindageData.direction w = "LEFT"%string) /\
    (drift = 0 ->
     WindageData.direction w = "RIGHT"%string /\
     WindageData.clicks w = 0%Z) /\
    (90 = 0 \/ 10 = 0 -> drift = 0).
Proof. apply windage_direction; [lra|exact moderate_wind_10]. Defined.

(** X13.  A drop table with a key 0 makes calculate_adjustments raise
    ZeroDivisionError at distance 0: the drop is found and then divided by
    [1.047 * (0 / 100)]. *)

Theorem zero_key_raises (self : BallisticCalculator) (s a : R) :
  In 0%Z (keys (drop_data self)) ->
  calculate_adjustments self 0 s a = Raise ZeroDivisionError.
Proof.
  intros Hk.
  destruct (dict_getitem_key _ _ Hk) as [v Hv].
  apply (calculate_adjustments_zero _ _ _ _ v eq_refl).
  unfold get_bullet_drop.
  assert (Hc : dict_contains (drop_data self) 0 = true)
    by (apply dict_contains_true; eauto).
  now rewrite Hc, Hv.
Qed.

Lemma zero_key_raises_example :
  calculate_adjustments zero_key_calculator 0 10 90
  = Raise ZeroDivisionError.
Proof. apply zero_key_raises; now left. Defined.

(** * The rangefinder *)

Lemma byte_at_bounds (data : list byte) (i : nat) :
  (0 <= byte_at data i <= 255)%Z.
Proof.
  unfold byte_at; pose proof (Byte.to_N_bounded (nth i data Byte.x00)); lia.
Qed.

Lemma frame_cm_bounds (data : list byte) : (0 <= frame_cm data <= 65535)%Z.
Proof.
  unfold frame_cm.
  pose proof (byte_at_bounds data 2); pose proof (byte_at_bounds data 3).
  lia.
Qed.

Lemma py_round_ndigits_1 (x : R) :
  py_round_ndigits x 1 = IZR (py_round (x * 10)) / 10.
Proof. unfold py_round_ndigits; simpl; now rewrite Rmult_1_r. Qed.

(** The yards get_distance makes of a centimetre count. *)

Lemma get_distance_well_formed (data : list byte) :
  well_formed data ->
  get_distance (Response data)
  = Ok (Some (py_round_ndigits (IZR (frame_cm data) / 91.44) 1)).
Proof.
  intros [Hlen [H0 H1]]; unfold get_distance, frame_cm.
  rewrite Hlen, H0, H1; cbn [Nat.eqb Z.eqb Pos.eqb andb].
  rewrite py_div_ok by lra; cbn [bind].
  rewrite Z.shiftl_mul_pow2 by lia.
  now replace (byte_at data 3 * 2 ^ 8)%Z with (256 * byte_at data 3)%Z
    by lia.
Qed.

Lemma get_distance_malformed (data : list byte) :
  ~ well_formed data -> get_distance (Response data) = Ok None.
Proof.
  intros Hw; unfold get_distance.
  destruct (List.length data =? 9)%nat eqn:E1; [|reflexivity].
  destruct (byte_at data 0 =? 0x59)%Z eqn:E2; [|reflexivity].
  destruct (byte_at data 1 =? 0x59)%Z eqn:E3; [|reflexivity].
  exfalso; apply Hw; repeat split.
  - now apply Nat.eqb_eq.
  - now apply Z.eqb_eq.
  - now apply Z.eqb_eq.
Qed.

Lemma well_formed_dec (data : list byte) :
  well_formed data \/ ~ well_formed data.
Proof.
  unfold well_formed.
  destruct (Nat.eq_dec (List.length data) 9);
    destruct (Z.eq_dec (byte_at data 0) 0x59);
    destruct (Z.eq_dec (byte_at data 1) 0x59); tauto.
Qed.

Lemma Rabs_le_bounds (x a : R) : Rabs x <= a -> - a <= x <= a.
Proof. unfold Rabs; destruct (Rcase_abs x); lra. Qed.

(** Rounding keeps the order. *)

Lemma py_round_monotone (x y : R) :
  x <= y -> (py_round x <= py_round y)%Z.
Proof.
  intros Hxy.
  pose proof (py_round_nearest x) as Hx; pose proof (py_round_nearest y) as Hy.
  apply Rabs_le_bounds in Hx, Hy.
  destruct (Z_le_gt_dec (py_round x) (py_round y)) as [Hle|Hgt]; [exact Hle|].
  assert (H1 : (py_round y + 1 <= py_round x)%Z) by lia.
  apply IZR_le in H1; rewrite plus_IZR in H1.
  assert (Heq : x = y) by lra.
  subst y; lia.
Qed.

Lemma py_round_ndigits_monotone (x y : R) :
  x <= y -> py_round_ndigits x 1 <= py_round_ndigits y 1.
Proof.
  intros Hxy; rewrite !py_round_ndigits_1.
  assert (H : (py_round (x * 10) <= py_round (y * 10))%Z)
    by (apply py_round_monotone; lra).
  apply IZR_le in H; lra.
Qed.

Lemma yards_monotone (c1 c2 : Z) :
  (c1 <= c2)%Z ->
  py_round_ndigits (IZR c1 / 91.44) 1 <= py_round_ndigits (IZR c2 / 91.44) 1.
Proof.
  intros H; apply IZR_le in H; apply py_round_ndigits_monotone; lra.
Qed.

(** The yards of the centimetre counts at which the behaviour changes. *)

Lemma yards_of_0 : py_round_ndigits (0 / 91.44) 1 = 0.
Proof.
  rewrite py_round_ndigits_1, (py_round_near _ 0); simpl; lra.
Qed.


Lemma yards_of_5 : py_round_ndigits (5 / 91.44) 1 = 0.1.
Proof.
  rewrite py_round_ndigits_1, (py_round_near _ 1); simpl; lra.
Qed.


Lemma yards_of_9140 : py_round_ndigits (9140 / 91.44) 1 = 100.
Proof.
  rewrite py_round_ndigits_1, (py_round_near _ 1000); simpl; lra.
Qed.

Lemma yards_of_65535 : py_round_ndigits (65535 / 91.44) 1 = 716.7.
Proof.
  rewrite py_round_ndigits_1, (py_round_near _ 7167); simpl; lra.
Qed.

(** X15.  A distance that get_distance returns is a whole number of
    tenths of a yard, within 0.05 yard of the centimetre count divided by
    91.44, and between 0 and 716.7 yards, the most two bytes can
    carry. *)

Theorem get_distance_accuracy (data : list byte) (d : R) :
  get_distance (Response data) = Ok (Some d) ->
  (exists n : Z, d = IZR n / 10) /\
  Rabs (d - IZR (frame_cm data) / 91.44) <= 0.05 /\
  0 <= d <= 716.7.
Proof.
  intros Hd.
  destruct (well_formed_dec data) as [Hw|Hw];
    [|rewrite (get_distance_malformed _ Hw) in Hd; discriminate].
  rewrite (get_distance_well_formed _ Hw) in Hd; injection Hd as <-.
  pose proof (frame_cm_bounds data) as [Hlo Hhi].
  split; [|split].
  - rewrite py_round_ndigits_1; eauto.
  - rewrite py_round_ndigits_1.
    pose proof (py_round_nearest (IZR (frame_cm data) / 91.44 * 10)) as Hn.
    apply Rabs_le_bounds in Hn; apply Rabs_le; lra.
  - pose proof (yards_monotone _ _ Hlo) as H1.
    pose proof (yards_monotone _ _ Hhi) as H2.
    rewrite yards_of_0 in H1; rewrite yards_of_65535 in H2; lra.
Qed.

Lemma well_formed_frame_9140 : well_formed frame_9140.
Proof. repeat split. Qed.

Lemma get_distance_frame_9140 :
  get_distance (Response frame_9140) = Ok (Some 100).
Proof.
  rewrite (get_distance_well_formed _ well_formed_frame_9140).
  change (frame_cm frame_9140) with 9140%Z; now rewrite yards_of_9140.
Qed.

Lemma get_distance_accuracy_9140 :
  (exists n : Z, 100 = IZR n / 10) /\
  Rabs (100 - IZR (frame_cm frame_9140) / 91.44) <= 0.05 /\
  0 <= 100 <= 716.7.
Proof.
  exact (get_distance_accuracy frame_9140 100 get_distance_frame_9140).
Defined.

(** X16.  get_distance reads the first four bytes of a frame only: two
    frames of nine bytes that agree on them give the same result, whatever
    the strength, temperature and checksum bytes that follow. *)

Theorem get_distance_ignores_tail (data data' : list byte) :
  List.length data = 9%nat -> List.length data' = 9%nat ->
  firstn 4 data = firstn 4 data' ->
  get_distance (Response data) = get_distance (Response data').
Proof.
  intros Hl Hl' Hf.
  assert (Hb : forall i, (i < 4)%nat -> byte_at data i = byte_at data' i).
  { intros i Hi; unfold byte_at.
    pose proof (nth_firstn 4 data i Byte.x00) as E.
    pose proof (nth_firstn 4 data' i Byte.x00) as E'.
    apply Nat.ltb_lt in Hi; rewrite Hi in E, E'.
    now rewrite <- E, <- E', Hf. }
  unfold get_distance; rewrite Hl, Hl'.
  now rewrite (Hb 0%nat), (Hb 1%nat), (Hb 2%nat), (Hb 3%nat) by lia.
Qed.

Lemma get_distance_ignores_tail_9140 :
  get_distance (Response frame_9140)
  = get_distance (Response frame_9140_tail).
Proof.
  exact (get_distance_ignores_tail frame_9140 frame_9140_tail
           eq_refl eq_refl eq_refl).
Defined.

(** * The loop of run *)

(** What the loop does with a distance it got. *)

Lemma run_cycle_distance (self : BallisticCalculator) (data : list byte)
  (battery : option Z) :
  well_formed data ->
  let d := py_round_ndigits (IZR (frame_cm data) / 91.44) 1 in
  run_cycle self (Response data) battery
  = if Reqb d 0 then Ok None
    else
      adjustments <- calculate_adjustments self d 10 90 ;;
      match adjustments with
      | (Some elevation, windage) =>
          Ok (Some {| shown_distance := d;
                      shown_elevation := elevation;
                      shown_windage := windage;
                      shown_battery := battery |})
      | (None, _) => Ok None
      end.
Proof.
  intros Hw d; unfold run_cycle.
  now rewrite (get_distance_well_formed _ Hw).
Qed.


(** X17.  With a drop table that is not empty, no pass of the loop of run
    reaches its exception handler, whatever the serial port and the
    battery give; and a reading under 5 cm, which is 0.0 yards and so
    false, is skipped as if there were none, with any tables. *)



(** The run's wind, 10 mph from 90 degrees, in range: up and left. *)


(** X18.  A pass of the loop of run calls display_oled exactly for a
    well-formed frame of at least 9140 cm.  The distance shown is then
    between 100 and 716.7 yards, so the entries of the tables from 800
    yards on are never used; the elevation is UP, the windage is there
    and LEFT, and the battery reading is passed on as it is. *)


(** 9140 cm with the battery at 87 percent: 100 yards, 7 clicks up and 2
    clicks left. *)

Example run_cycle_9140 :
  run_cycle calculator (Response frame_9140) (Some 87%Z)
  = Ok (Some {| shown_distance := 100;
                shown_elevation := ElevationData.mk 7 "UP";
                shown_windage := Some (WindageData.mk 2 "LEFT");
                shown_battery := Some 87%Z |}).
Proof.
  rewrite (run_cycle_distance _ _ _ well_formed_frame_9140); cbv zeta.
  change (frame_cm frame_9140) with 9140%Z; rewrite yards_of_9140.
  rewrite (proj2 (Reqb_false 100 0)) by lra.
  assert (Hv : get_bullet_drop calculator 100 = Ok (Some (-1.92))).
  { apply (get_bullet_drop_key _ _ 100 _ NoDup_drop_keys);
      [now left|reflexivity]. }
  assert (Hb : base_drift_lookup calculator 100 = Ok (Some 0.5)).
  { apply (base_drift_lookup_key _ _ 100 _ NoDup_wind_keys);
      [now left|reflexivity]. }
  pose proof (calculate_wind_drift_some _ _ 10 90 _ Hb) as Hw.
  assert (Hnz : 100 <> 0) by lra.
  rewrite (calculate_adjustments_some _ _ _ _ _ _ Hnz Hv Hw).
  cbn [bind option_map]; do 2 f_equal.
  rewrite half_turn_true by lra.
  unfold elevation_of, windage_of, drift_magnitude, moa_at,
    MOA_CONVERSION, CLICKS_PER_MOA.
  rewrite sin_radians_90, Rmult_1_r, (Rabs_pos_eq 10) by lra.
  rewrite (py_round_near _ (-7)), (py_round_near _ (-2)) by lra.
  rewrite !(proj2 (Rltb_true _ 0)) by lra.
  reflexivity.
Qed.
